(** * Constraint controller: reconciliation pass and constraints cache

    A shallow embedding of
    [pkg/controller/constraint/constraint_controller.go] and the
    properties of its reconciliation pass.

    The controller talks to three collaborators that live outside the
    file: the API server (the embedded [client.Client]), the OPA client
    and the stats reporter.  A pass is modelled as a function on a
    [World] holding what the collaborators store, the constraints cache,
    and the sequence of collaborator calls made so far.  Whether a call
    fails is not decided by the controller; an [Env] fixes, for one pass,
    the answer of every call that can fail. *)

From stdpp Require Import base option list strings gmap fin_maps.
From Stdlib Require Import ZArith Lia.

Local Open Scope Z_scope.

(* ================================================================== *)
(** ** Data model *)

(** [util.EnforcementAction] and [metrics.Status] are string types. *)
Definition EnforcementAction := string.
Definition Status := string.

(** [type tags struct { enforcementAction; status }] *)
Record tags := Tags {
  enforcementAction : EnforcementAction;
  status : Status;
}.

Global Instance tags_eq_dec : EqDecision tags.
Proof. solve_decision. Defined.

Global Instance tags_countable : Countable tags :=
  inj_countable' (fun t => (enforcementAction t, status t))
                 (fun p => Tags p.1 p.2)
                 (fun t => match t with Tags _ _ => eq_refl end).

(** Modelled from the spec: the two statuses the reconciler writes
    ([metrics.ActiveStatus], [metrics.ErrorStatus]); package [metrics] is
    not part of the sources at hand. *)
Definition ActiveStatus : Status := "active"%string.
Definition ErrorStatus : Status := "error"%string.

(** Go [error] values.  The controller only ever asks two questions of
    an error: is it a not-found error of the API server
    ([errors.IsNotFound]) and is it an [*opa.UnrecognizedConstraintError]
    (type assertion at line 229); otherwise it uses its message. *)
Inductive GoError :=
| NotFoundError (msg : string)
| UnrecognizedConstraintError (msg : string)
| OtherError (msg : string).

Global Instance GoError_eq_dec : EqDecision GoError.
Proof. solve_decision. Defined.

Definition Error (e : GoError) : string :=
  match e with
  | NotFoundError m | UnrecognizedConstraintError m | OtherError m => m
  end.

Definition IsNotFound (e : GoError) : bool :=
  match e with NotFoundError _ => true | _ => false end.

Definition IsUnrecognizedConstraint (e : GoError) : bool :=
  match e with UnrecognizedConstraintError _ => true | _ => false end.

(** [csutil.Error]: only [Message] is ever filled in by the controller. *)
Record CsError := { Message : string }.

Global Instance CsError_eq_dec : EqDecision CsError.
Proof. solve_decision. Defined.

(** Modelled from the spec: [csutil.HAStatus], the status sub-object
    "holding an enforced flag and a list of error messages"; package
    [csutil] is not part of the sources at hand. *)
Record HAStatus := {
  Enforced : bool;
  Errors : list CsError;
}.

Global Instance HAStatus_eq_dec : EqDecision HAStatus.
Proof. solve_decision. Defined.

Definition set_Errors (es : list CsError) (s : HAStatus) : HAStatus :=
  {| Enforced := Enforced s; Errors := es |}.

Definition set_Enforced (b : bool) (s : HAStatus) : HAStatus :=
  {| Enforced := b; Errors := Errors s |}.

(** The value stored under the ["status"] key of an unstructured object.
    The object is untyped JSON, so the value need not have the shape of
    an [HAStatus]; [StatusOpaque] stands for any value that has not. *)
Inductive StatusValue :=
| StatusHA (s : HAStatus)
| StatusOpaque (raw : string).

Global Instance StatusValue_eq_dec : EqDecision StatusValue.
Proof. solve_decision. Defined.

(** The [spec.enforcementAction] field as [util.GetEnforcementAction]
    finds it: a string, or something the accessor rejects with an
    error. *)
Inductive ActionField :=
| ActionString (a : EnforcementAction)
| ActionUnreadable (why : string).

Global Instance ActionField_eq_dec : EqDecision ActionField.
Proof. solve_decision. Defined.

(** The policy content of a constraint: everything under ["spec"]. *)
Record PolicySpec := {
  specEnforcementAction : ActionField;
  specParameters : string;
}.

Global Instance PolicySpec_eq_dec : EqDecision PolicySpec.
Proof. solve_decision. Defined.

(** Modelled from the spec: [unstructured.Unstructured] restricted to the
    fields of the resource wire shape
    [{ kind, name, deletionRequested, finalizers, spec, status }];
    the type belongs to the Kubernetes libraries.  A field is named
    after the accessor the controller reads it with.  [StatusField] is
    [None] when the object has no ["status"] key. *)
Record Unstructured := {
  GetKind : string;
  GetName : string;
  DeletionRequested : bool;
  GetFinalizers : list string;
  GetSpec : PolicySpec;
  StatusField : option StatusValue;
}.

Global Instance Unstructured_eq_dec : EqDecision Unstructured.
Proof. solve_decision. Defined.

(** [instance.SetFinalizers(fs)] *)
Definition SetFinalizers (fs : list string) (o : Unstructured) : Unstructured :=
  {| GetKind := GetKind o; GetName := GetName o;
     DeletionRequested := DeletionRequested o;
     GetFinalizers := fs; GetSpec := GetSpec o;
     StatusField := StatusField o |}.

(** Writing the ["status"] key: [unstructured.SetNestedField(o.Object, v,
    "status")] is [SetStatusField (Some v)],
    [unstructured.RemoveNestedField(o.Object, "status")] is
    [SetStatusField None]. *)
Definition SetStatusField (st : option StatusValue) (o : Unstructured) : Unstructured :=
  {| GetKind := GetKind o; GetName := GetName o;
     DeletionRequested := DeletionRequested o;
     GetFinalizers := GetFinalizers o; GetSpec := GetSpec o;
     StatusField := st |}.

(** [instance.GetDeletionTimestamp().IsZero()] *)
Definition DeletionTimestampIsZero (o : Unstructured) : bool :=
  negb (DeletionRequested o).

(** [strings.Join(elems, sep)] *)
Fixpoint Join (elems : list string) (sep : string) : string :=
  match elems with
  | [] => ""
  | [e] => e
  | e :: rest => String.append e (String.append sep (Join rest sep))
  end.

(** Modelled from the spec: [util.GetEnforcementAction], which extracts
    the "desired enforcement action" the resource carries and can fail;
    package [util] is not part of the sources at hand. *)
Definition GetEnforcementAction (o : Unstructured) : EnforcementAction + GoError :=
  match specEnforcementAction (GetSpec o) with
  | ActionString a => inl a
  | ActionUnreadable why => inr (OtherError why)
  end.

(** Modelled from the spec: [csutil.GetHAStatus].  An object without
    status has the zero [HAStatus]; a status value of another shape is an
    error. *)
Definition GetHAStatus (o : Unstructured) : HAStatus + GoError :=
  match StatusField o with
  | None => inl {| Enforced := false; Errors := [] |}
  | Some (StatusHA s) => inl s
  | Some (StatusOpaque _) => inr (OtherError "while getting HA status")
  end.

(** Modelled from the spec: [csutil.SetHAStatus].  The sources at hand
    do not say when it fails.  Here it writes the status wherever
    [GetHAStatus] can read one, and fails on the status values
    [GetHAStatus] fails on, leaving the object alone then.  So in this
    model a pass that got past line 186 does not take the error returns
    of lines 192 and 214 nor the log of line 202: past line 191 it only
    applies [SetHAStatus] to an object whose status it wrote itself.
    [syncConstraint] keeps these branches as the source has them. *)
Definition SetHAStatus (o : Unstructured) (s : HAStatus) : Unstructured + GoError :=
  match StatusField o with
  | Some (StatusOpaque _) => inr (OtherError "while setting HA status")
  | _ => inl (SetStatusField (Some (StatusHA s)) o)
  end.

(** Modelled from the spec: [constraints.SemanticEqual], the
    "semantic-equality check that ignores status-only differences": two
    objects are equal when their policy content is.  The function belongs
    to the constraint framework. *)
Definition SemanticEqual (c1 c2 : Unstructured) : bool :=
  bool_decide (GetSpec c1 = GetSpec c2).

(* ================================================================== *)
(** ** Finalizer helpers (lines 275-300) *)

Definition finalizerName : string := "finalizers.gatekeeper.sh/constraint".

Fixpoint containsString (s : string) (items : list string) : bool :=
  match items with
  | [] => false
  | item :: rest => if decide (item = s) then true else containsString s rest
  end.

(** [rval] starts as the nil slice and collects what is kept, in order. *)
Fixpoint removeString (s : string) (items : list string) : list string :=
  match items with
  | [] => []
  | item :: rest =>
      if decide (item ≠ s) then item :: removeString s rest
      else removeString s rest
  end.

Definition RemoveFinalizer (instance : Unstructured) : Unstructured :=
  SetFinalizers (removeString finalizerName (GetFinalizers instance)) instance.

Definition HasFinalizer (instance : Unstructured) : bool :=
  containsString finalizerName (GetFinalizers instance).

(* ================================================================== *)
(** ** The world of a pass *)

(** One call to a collaborator, with the argument it was given. *)
Inductive Call :=
| StoreGet (name : string)                  (* r.Get *)
| StoreUpdate (obj : Unstructured)          (* r.Update *)
| StoreStatusUpdate (obj : Unstructured)    (* r.Status().Update *)
| OpaGetConstraint (obj : Unstructured)     (* r.opa.GetConstraint *)
| OpaAddConstraint (obj : Unstructured)     (* r.opa.AddConstraint *)
| OpaRemoveConstraint (obj : Unstructured)  (* r.opa.RemoveConstraint *)
| ReportConstraints (t : tags) (v : Z).     (* reporter.reportConstraints *)

Global Instance Call_eq_dec : EqDecision Call.
Proof. solve_decision. Defined.

(** A call to the OPA client, reading or writing. *)
Definition isOpaCall (c : Call) : bool :=
  match c with
  | OpaGetConstraint _ | OpaAddConstraint _ | OpaRemoveConstraint _ => true
  | _ => false
  end.

(** A call that changes the OPA client's rule set. *)
Definition isOpaWrite (c : Call) : bool :=
  match c with
  | OpaAddConstraint _ | OpaRemoveConstraint _ => true
  | _ => false
  end.

Definition isReport (c : Call) : bool :=
  match c with ReportConstraints _ _ => true | _ => false end.

(** [store]: the objects the API server holds for the controller's kind,
    by name.  [engine]: the constraints the OPA client holds, by
    kind/name.  [cache]: [ConstraintsCache.cache].  [calls]: collaborator
    calls, oldest first.  [logs]: messages handed to the loggers. *)
Record World := {
  store : gmap string Unstructured;
  engine : gmap string Unstructured;
  cache : gmap string tags;
  calls : list Call;
  logs : list string;
}.

Definition set_store (s : gmap string Unstructured) (w : World) : World :=
  {| store := s; engine := engine w; cache := cache w;
     calls := calls w; logs := logs w |}.

Definition set_engine (e : gmap string Unstructured) (w : World) : World :=
  {| store := store w; engine := e; cache := cache w;
     calls := calls w; logs := logs w |}.

Definition set_cache (c : gmap string tags) (w : World) : World :=
  {| store := store w; engine := engine w; cache := c;
     calls := calls w; logs := logs w |}.

Definition record (c : Call) (w : World) : World :=
  {| store := store w; engine := engine w; cache := cache w;
     calls := calls w ++ [c]; logs := logs w |}.

Definition log (msg : string) (w : World) : World :=
  {| store := store w; engine := engine w; cache := cache w;
     calls := calls w; logs := logs w ++ [msg] |}.

(** What one pass cannot decide for itself.  The two tables are
    package-level variables of [util] and [metrics]; the other fields
    are the answers of the collaborators during the pass: the processing
    switch, and for each call that can fail, the error it fails with.
    [updateStatusView o] is the status the API server's copy of [o]
    carries once [r.Update] has stored [o] (the server, not the caller,
    decides what becomes of the status on a plain update). *)
Record Env := {
  KnownEnforcementActions : list EnforcementAction;
  AllStatuses : list Status;
  enabled : bool;
  getErr : option GoError;
  updateErr : option GoError;
  updateStatusView : Unstructured -> option StatusValue;
  statusUpdateErr : option GoError;
  opaGetErr : option GoError;
  opaAddErr : option GoError;
  opaRemoveErr : option GoError;
  reportErr : tags -> Z -> option GoError;
}.

(* ------------------------------------------------------------------ *)
(** *** Resource store gateway

    Modelled from the spec: the API server behind [client.Client]
    ("get / update / update-status for a resource").  A call records
    itself, fails when the environment says so, and otherwise acts on
    [store] as the operation's name says.  Garbage collection of an
    object whose last finalizer is gone is left to the server and not
    modelled. *)

(** [r.Get(ctx, request.NamespacedName, instance)].  The group, version
    and kind set on the empty [instance] before the call select the
    controller's kind, whose objects [store] holds. *)
Definition Get (env : Env) (name : string) (w : World)
  : (Unstructured + GoError) * World :=
  let w := record (StoreGet name) w in
  match getErr env with
  | Some e => (inr e, w)
  | None =>
      match store w !! name with
      | Some obj => (inl obj, w)
      | None => (inr (NotFoundError name), w)
      end
  end.

(** [r.Update(ctx, instance)]: on success the server's copy replaces the
    contents of [*instance]. *)
Definition Update (env : Env) (instance : Unstructured) (w : World)
  : Unstructured * option GoError * World :=
  let w := record (StoreUpdate instance) w in
  match updateErr env with
  | Some e => (instance, Some e, w)
  | None =>
      let stored := SetStatusField (updateStatusView env instance) instance in
      (stored, None, set_store (<[GetName instance := stored]> (store w)) w)
  end.

(** [r.Status().Update(ctx, instance)]: only the status of the stored
    object is written. *)
Definition StatusUpdate (env : Env) (instance : Unstructured) (w : World)
  : option GoError * World :=
  let w := record (StoreStatusUpdate instance) w in
  match statusUpdateErr env with
  | Some e => (Some e, w)
  | None =>
      (None,
       set_store (alter (SetStatusField (StatusField instance))
                        (GetName instance) (store w)) w)
  end.

(* ------------------------------------------------------------------ *)
(** *** Policy engine gateway

    Modelled from the spec: the OPA client ("add / remove / get
    operations for a single rule keyed by resource identity"). *)

Definition engineKey (obj : Unstructured) : string :=
  Join [GetKind obj; GetName obj] "/".

(** [r.opa.GetConstraint(ctx, instance)] *)
Definition GetConstraint (env : Env) (instance : Unstructured) (w : World)
  : (Unstructured + GoError) * World :=
  let w := record (OpaGetConstraint instance) w in
  match opaGetErr env with
  | Some e => (inr e, w)
  | None =>
      match engine w !! engineKey instance with
      | Some c => (inl c, w)
      | None => (inr (OtherError "constraint not found"), w)
      end
  end.

(** [r.opa.AddConstraint(ctx, obj)] *)
Definition AddConstraint (env : Env) (obj : Unstructured) (w : World)
  : option GoError * World :=
  let w := record (OpaAddConstraint obj) w in
  match opaAddErr env with
  | Some e => (Some e, w)
  | None => (None, set_engine (<[engineKey obj := obj]> (engine w)) w)
  end.

(** [r.opa.RemoveConstraint(ctx, instance)] *)
Definition RemoveConstraint (env : Env) (instance : Unstructured) (w : World)
  : option GoError * World :=
  let w := record (OpaRemoveConstraint instance) w in
  match opaRemoveErr env with
  | Some e => (Some e, w)
  | None => (None, set_engine (delete (engineKey instance) (engine w)) w)
  end.

(* ------------------------------------------------------------------ *)
(** *** Metrics reporter gateway

    Modelled from the spec: [StatsReporter] ("report(Tag, count)"),
    declared in another file of the package. *)

(** [reporter.reportConstraints(t, v)] *)
Definition reportConstraints (env : Env) (t : tags) (v : Z) (w : World)
  : option GoError * World :=
  (reportErr env t v, record (ReportConstraints t v) w).

(* ================================================================== *)
(** ** ConstraintsCache (lines 302-350)

    The cache is the [cache] field of the world.  The mutex of the Go
    struct orders concurrent passes; one pass, as modelled here, runs
    alone, so locking and unlocking leave no trace. *)

Definition NewConstraintsCache : gmap string tags := ∅.

Definition addConstraintKey (constraintKey : string) (t : tags) (w : World) : World :=
  set_cache
    (<[constraintKey := {| enforcementAction := enforcementAction t;
                           status := status t |}]> (cache w)) w.

Definition deleteConstraintKey (constraintKey : string) (w : World) : World :=
  set_cache (delete constraintKey (cache w)) w.

(** [totals[k]] of a Go [map[tags]int]: the zero value when [k] is
    missing.  A count never exceeds the number of entries of a map,
    which is an [int] itself, so no addition wraps. *)
Definition totalsAt (totals : gmap tags Z) (k : tags) : Z :=
  default 0 (totals !! k).

(** [for _, v := range c.cache { totals[v]++ }].  The order in which Go
    ranges over the map does not matter: the increments commute. *)
Definition countTotals (c : gmap string tags) : gmap tags Z :=
  map_fold (fun _ v totals => <[v := totalsAt totals v + 1]> totals) ∅ c.

(** The body of the inner loop: one report, its error only logged.
    [int64(n)] is [n] for a count. *)
Definition reportCell (env : Env) (totals : gmap tags Z)
    (enforcementAction : EnforcementAction) (w : World) (status : Status) : World :=
  let t := {| enforcementAction := enforcementAction; status := status |} in
  let '(err, w) := reportConstraints env t (totalsAt totals t) w in
  match err with
  | Some _ => log "failed to report total constraints" w
  | None => w
  end.

Definition reportTotalConstraints (env : Env) (w : World) : World :=
  let totals := countTotals (cache w) in
  foldl (fun w enforcementAction =>
           foldl (reportCell env totals enforcementAction) w (AllStatuses env))
        w (KnownEnforcementActions env).

(* ================================================================== *)
(** ** cacheConstraint (lines 267-273) *)

(** [unstructured.RemoveNestedField(obj.Object, "status")] *)
Definition RemoveStatusField (obj : Unstructured) : Unstructured :=
  SetStatusField None obj.

(** The function on values: [obj] is a copy of [instance], so the
    removal of the status touches [obj] alone. *)
Definition cacheConstraint (env : Env) (instance : Unstructured) (w : World)
  : option GoError * World :=
  let obj := instance in                 (* instance.DeepCopy() *)
  let obj := RemoveStatusField obj in
  AddConstraint env obj w.

(** The same function with the pointers written out.  [instance] and
    [obj] are addresses in a heap of objects; [DeepCopy] allocates,
    [RemoveNestedField] writes through the address it is given. *)
Module Ptr.

Abbreviation Heap := (gmap positive Unstructured).

(** [p.DeepCopy()]: a fresh address holding a copy of [*p]. *)
Definition DeepCopy (p : positive) (h : Heap) : option (positive * Heap) :=
  match h !! p with
  | Some o => let q := fresh (dom h) in Some (q, <[q := o]> h)
  | None => None
  end.

(** [unstructured.RemoveNestedField(p.Object, "status")] *)
Definition RemoveNestedField_status (p : positive) (h : Heap) : Heap :=
  alter RemoveStatusField p h.

(** The result is [None] only when [instance] is a dangling address. *)
Definition cacheConstraint (env : Env) (instance : positive) (h : Heap) (w : World)
  : option (option GoError * Heap * World) :=
  match DeepCopy instance h with
  | None => None
  | Some (obj, h) =>
      let h := RemoveNestedField_status obj h in
      match h !! obj with
      | None => None
      | Some o =>
          let '(err, w) := AddConstraint env o w in
          Some (err, h, w)
      end
  end.

End Ptr.

(* ================================================================== *)
(** ** Reconcile (lines 138-245) *)

(** [reconcile.Result]; [RequeueAfter] is never set by the controller. *)
Record Result := { Requeue : bool }.

Global Instance Result_eq_dec : EqDecision Result.
Proof. solve_decision. Defined.

Definition logAddition (instance : Unstructured) (a : EnforcementAction)
    (w : World) : World :=
  log "constraint added to OPA" w.

Definition logRemoval (instance : Unstructured) (a : EnforcementAction)
    (w : World) : World :=
  log "constraint removed from OPA" w.

(** What a block of the pass hands back when it returns from
    [Reconcile]: the returned pair, the value of [reportMetrics] at that
    point, and the world. *)
Definition Returned : Type := (Result * option GoError) * bool * World.

(** Lines 172-184.  [None]: the pass returns [Requeue: true] from inside
    the block.  [Some instance]: the pass goes on with this in-memory
    object. *)
Definition ensureFinalizer (env : Env) (instance : Unstructured) (w : World)
  : option Unstructured * World :=
  if negb (HasFinalizer instance) then
    let status := StatusField instance in    (* NestedFieldCopy(.., "status") *)
    let instance :=
      SetFinalizers (GetFinalizers instance ++ [finalizerName]) instance in
    let '(instance, err, w) := Update env instance w in
    match err with
    | Some _ => (None, w)
    | None =>
        match status with
        | Some st => (Some (SetStatusField (Some st) instance), w)
        | None => (Some instance, w)
        end
    end
  else (Some instance, w).

(** Lines 185-224. *)
Definition syncConstraint (env : Env) (instance : Unstructured)
    (constraintKey : string) (enforcementAction : EnforcementAction) (w : World)
  : Returned :=
  let w := log "handling constraint update" w in
  match GetHAStatus instance with
  | inr err => (({| Requeue := false |}, Some err), false, w)
  | inl status =>
  let status := set_Errors [] status in
  match SetHAStatus instance status with
  | inr err => (({| Requeue := false |}, Some err), false, w)
  | inl instance =>
  let '(c, w) := GetConstraint env instance w in
  let stale :=
    match c with
    | inr _ => true                              (* err != nil *)
    | inl c => negb (SemanticEqual instance c)
    end in
  let registered : Returned + World :=
    if stale then
      let '(err, w) := cacheConstraint env instance w in
      match err with
      | Some err =>
          let w := addConstraintKey constraintKey
                     {| enforcementAction := enforcementAction;
                        status := ErrorStatus |} w in
          let status :=
            set_Errors (Errors status ++ [{| Message := Error err |}]) status in
          let '(instance, w) :=
            match SetHAStatus instance status with
            | inr _ => (instance, log "could not set constraint error status" w)
            | inl instance => (instance, w)
            end in
          let '(err2, w) := StatusUpdate env instance w in
          let w :=
            match err2 with
            | Some _ => log "could not report constraint error status" w
            | None => w
            end in
          inl (({| Requeue := false |}, Some err), true, w)
      | None => inr (logAddition instance enforcementAction w)
      end
    else inr w in
  match registered with
  | inl ret => ret
  | inr w =>
  let status := set_Enforced true status in
  match SetHAStatus instance status with
  | inr err => (({| Requeue := false |}, Some err), false, w)
  | inl instance =>
  let '(err, w) := StatusUpdate env instance w in
  match err with
  | Some _ => (({| Requeue := true |}, None), false, w)
  | None =>
      let w := addConstraintKey constraintKey
                 {| enforcementAction := enforcementAction;
                    status := ActiveStatus |} w in
      (({| Requeue := false |}, None), true, w)
  end end end end end.

(** Lines 226-243. *)
Definition handleDeletion (env : Env) (instance : Unstructured)
    (constraintKey : string) (enforcementAction : EnforcementAction) (w : World)
  : Returned :=
  if HasFinalizer instance then
    let '(err, w) := RemoveConstraint env instance w in
    let removed : Returned + World :=
      match err with
      | Some err =>
          if negb (IsUnrecognizedConstraint err) then
            inl (({| Requeue := false |}, Some err), false,
                 logRemoval instance enforcementAction w)
          else inr w
      | None => inr w
      end in
    match removed with
    | inl ret => ret
    | inr w =>
        let w := logRemoval instance enforcementAction w in
        let instance := RemoveFinalizer instance in
        let '(_, err, w) := Update env instance w in
        match err with
        | Some _ => (({| Requeue := true |}, None), false, w)
        | None =>
            let w := deleteConstraintKey constraintKey w in
            (({| Requeue := false |}, None), true, w)
        end
    end
  else (({| Requeue := false |}, None), false, w).

(** Lines 171-244: the pass once the object and its enforcement action
    are known. *)
Definition reconcileInstance (env : Env) (instance : Unstructured)
    (constraintKey : string) (enforcementAction : EnforcementAction) (w : World)
  : Returned :=
  if DeletionTimestampIsZero instance then
    match ensureFinalizer env instance w with
    | (None, w) => (({| Requeue := true |}, None), false, w)
    | (Some instance, w) =>
        syncConstraint env instance constraintKey enforcementAction w
    end
  else handleDeletion env instance constraintKey enforcementAction w.

(** The deferred function of line 165, run when the pass returns. *)
Definition deferredReport (env : Env) (r : Returned) : (Result * option GoError) * World :=
  let '(ret, reportMetrics, w) := r in
  (ret, if reportMetrics then reportTotalConstraints env w else w).

(** [Reconcile(request)].  [r.cs.Enter()] answers [enabled env]; the
    deferred [r.cs.Exit()] releases the switch and has no other effect
    on the pass.  The blocks of lines 172-184, 185-224 and 226-243 are
    the three definitions above, so that each can be stated on its
    own. *)
Definition Reconcile (env : Env) (request : string) (w : World)
  : (Result * option GoError) * World :=
  if negb (enabled env) then
    (({| Requeue := false |}, None),
     log "ignoring request, constraint controller disabled" w)
  else
    let '(got, w) := Get env request w in
    match got with
    | inr err =>
        if IsNotFound err then (({| Requeue := false |}, None), w)
        else (({| Requeue := false |}, Some err), w)
    | inl instance =>
        let constraintKey :=
          Join [GetKind instance; GetName instance] "/" in
        match GetEnforcementAction instance with
        | inr err => (({| Requeue := false |}, Some err), w)
        | inl enforcementAction =>
            deferredReport env
              (reconcileInstance env instance constraintKey enforcementAction w)
        end
    end.

(* ================================================================== *)
(** ** Specification vocabulary *)

(** The number of cache entries whose tag is [t]. *)
Definition tagCount (c : gmap string tags) (t : tags) : Z :=
  Z.of_nat (size (filter (fun kv => kv.2 = t) c)).

(** The cells of the metrics table, in the order the two loops of
    [reportTotalConstraints] visit them. *)
Definition cells (env : Env) : list tags :=
  a ← KnownEnforcementActions env;
  s ← AllStatuses env;
  [{| enforcementAction := a; status := s |}].

(** The reports one aggregation over cache [c] sends. *)
Definition reportCalls (env : Env) (c : gmap string tags) : list Call :=
  (fun t => ReportConstraints t (tagCount c t)) <$> cells env.

(** The collaborator calls made by one pass started in world [w]. *)
Definition passCalls (env : Env) (request : string) (w : World) : list Call :=
  drop (length (calls w)) (calls (Reconcile env request w).2).

(** The key under which the pass files the object in the cache. *)
Definition constraintKeyOf (o : Unstructured) : string :=
  Join [GetKind o; GetName o] "/".


(* ================================================================== *)
(** ** The paths of a pass

    Each block of [Reconcile] is characterised by a relation with one
    constructor per way through the block, giving the premises under
    which the way is taken and the world it leaves.  The lemmas
    [*_path] show that the functions above follow these relations; the
    properties of the pass are then read off by case analysis. *)

(** The object with the finalizer appended (line 174). *)
Definition attach (o : Unstructured) : Unstructured :=
  SetFinalizers (GetFinalizers o ++ [finalizerName]) o.

(** The API server's copy of [o] after a plain update. *)
Definition serverCopy (env : Env) (o : Unstructured) : Unstructured :=
  SetStatusField (updateStatusView env o) o.

(** The condition of line 194: the fetch failed or the contents differ. *)
Definition stale (env : Env) (instance : Unstructured) (w : World) : bool :=
  match opaGetErr env with
  | Some _ => true
  | None =>
      match engine w !! engineKey instance with
      | Some c => negb (SemanticEqual instance c)
      | None => true
      end
  end.

(** The condition under which line 234 is reached: the engine removed
    the constraint or did not recognise it. *)
Definition removalConfirmed (env : Env) : bool :=
  match opaRemoveErr env with
  | None => true
  | Some e => IsUnrecognizedConstraint e
  end.

(** The pass got hold of [instance] (lines 139-156). *)
Definition Fetched (env : Env) (request : string) (w : World)
    (instance : Unstructured) : Prop :=
  enabled env = true ∧ getErr env = None ∧ store w !! request = Some instance.

(** The object in memory with the given [HAStatus] written into it. *)
Definition withStatus (s : HAStatus) (o : Unstructured) : Unstructured :=
  SetStatusField (Some (StatusHA s)) o.

Section Paths.

Variable env : Env.

(** Lines 172-184. *)
Inductive Marked (instance : Unstructured) (w : World)
  : option Unstructured → World → Prop :=
| Marked_already :
    HasFinalizer instance = true →
    Marked instance w (Some instance) w
| Marked_update_failed e :
    HasFinalizer instance = false →
    updateErr env = Some e →
    Marked instance w None (record (StoreUpdate (attach instance)) w)
| Marked_attached :
    HasFinalizer instance = false →
    updateErr env = None →
    Marked instance w
      (Some (SetStatusField
               (match StatusField instance with
                | Some st => Some st
                | None => updateStatusView env (attach instance)
                end) (attach instance)))
      (set_store (<[GetName instance := serverCopy env (attach instance)]> (store w))
         (record (StoreUpdate (attach instance)) w)).

(** Lines 194-211 when they do not return: [cleared] is the object
    with its error list reset, [w] the world after the fetch. *)
Inductive Registered (cleared : Unstructured) (w : World) : World → Prop :=
| Registered_skipped :
    stale env cleared w = false →
    Registered cleared w w
| Registered_added :
    stale env cleared w = true →
    opaAddErr env = None →
    Registered cleared w
      (log "constraint added to OPA"
         (set_engine
            (<[engineKey cleared := RemoveStatusField cleared]> (engine w))
            (record (OpaAddConstraint (RemoveStatusField cleared)) w))).

(** Lines 185-224. *)
Inductive Synced (instance : Unstructured) (constraintKey : string)
    (ea : EnforcementAction) (w : World) : Returned → Prop :=
| Synced_status_unreadable e :
    GetHAStatus instance = inr e →
    Synced instance constraintKey ea w
      (({| Requeue := false |}, Some e), false,
       log "handling constraint update" w)
| Synced_add_failed st e :
    GetHAStatus instance = inl st →
    let cleared := withStatus (set_Errors [] st) instance in
    let failed :=
      withStatus (set_Errors [{| Message := Error e |}] st) instance in
    let w1 := record (OpaGetConstraint cleared)
                (log "handling constraint update" w) in
    let w2 := addConstraintKey constraintKey (Tags ea ErrorStatus)
                (record (OpaAddConstraint (RemoveStatusField cleared)) w1) in
    stale env cleared w = true →
    opaAddErr env = Some e →
    Synced instance constraintKey ea w
      (({| Requeue := false |}, Some e), true,
       match statusUpdateErr env with
       | Some _ =>
           log "could not report constraint error status"
             (record (StoreStatusUpdate failed) w2)
       | None =>
           set_store
             (alter (SetStatusField (StatusField failed)) (GetName instance)
                (store w))
             (record (StoreStatusUpdate failed) w2)
       end)
| Synced_requeue st w2 e :
    GetHAStatus instance = inl st →
    let cleared := withStatus (set_Errors [] st) instance in
    let enforced :=
      withStatus (set_Enforced true (set_Errors [] st)) instance in
    Registered cleared
      (record (OpaGetConstraint cleared) (log "handling constraint update" w))
      w2 →
    statusUpdateErr env = Some e →
    Synced instance constraintKey ea w
      (({| Requeue := true |}, None), false,
       record (StoreStatusUpdate enforced) w2)
| Synced_ok st w2 :
    GetHAStatus instance = inl st →
    let cleared := withStatus (set_Errors [] st) instance in
    let enforced :=
      withStatus (set_Enforced true (set_Errors [] st)) instance in
    Registered cleared
      (record (OpaGetConstraint cleared) (log "handling constraint update" w))
      w2 →
    statusUpdateErr env = None →
    Synced instance constraintKey ea w
      (({| Requeue := false |}, None), true,
       addConstraintKey constraintKey (Tags ea ActiveStatus)
         (set_store
            (alter (SetStatusField (StatusField enforced)) (GetName instance)
               (store w2))
            (record (StoreStatusUpdate enforced) w2))).

(** Lines 226-243. *)
Inductive Deleted (instance : Unstructured) (constraintKey : string)
    (ea : EnforcementAction) (w : World) : Returned → Prop :=
| Deleted_unmarked :
    HasFinalizer instance = false →
    Deleted instance constraintKey ea w
      (({| Requeue := false |}, None), false, w)
| Deleted_engine_error e :
    HasFinalizer instance = true →
    opaRemoveErr env = Some e →
    IsUnrecognizedConstraint e = false →
    Deleted instance constraintKey ea w
      (({| Requeue := false |}, Some e), false,
       log "constraint removed from OPA"
         (record (OpaRemoveConstraint instance) w))
| Deleted_requeue e :
    HasFinalizer instance = true →
    removalConfirmed env = true →
    updateErr env = Some e →
    Deleted instance constraintKey ea w
      (({| Requeue := true |}, None), false,
       record (StoreUpdate (RemoveFinalizer instance))
         (log "constraint removed from OPA"
            (RemoveConstraint env instance w).2))
| Deleted_ok :
    HasFinalizer instance = true →
    removalConfirmed env = true →
    updateErr env = None →
    let w1 := (RemoveConstraint env instance w).2 in
    Deleted instance constraintKey ea w
      (({| Requeue := false |}, None), true,
       deleteConstraintKey constraintKey
         (set_store
            (<[GetName instance := serverCopy env (RemoveFinalizer instance)]>
               (store w1))
            (record (StoreUpdate (RemoveFinalizer instance))
               (log "constraint removed from OPA" w1)))).

(** Lines 138-245. *)
Inductive Pass (request : string) (w : World)
  : (Result * option GoError) * World → Prop :=
| Pass_disabled :
    enabled env = false →
    Pass request w
      (({| Requeue := false |}, None),
       log "ignoring request, constraint controller disabled" w)
| Pass_get_failed e :
    enabled env = true →
    (Get env request w).1 = inr e →
    Pass request w
      (({| Requeue := false |}, if IsNotFound e then None else Some e),
       record (StoreGet request) w)
| Pass_action_unreadable instance e :
    Fetched env request w instance →
    GetEnforcementAction instance = inr e →
    Pass request w
      (({| Requeue := false |}, Some e), record (StoreGet request) w)
| Pass_marker_requeue instance ea w1 :
    Fetched env request w instance →
    GetEnforcementAction instance = inl ea →
    DeletionRequested instance = false →
    Marked instance (record (StoreGet request) w) None w1 →
    Pass request w (({| Requeue := true |}, None), w1)
| Pass_active instance ea marked w1 r :
    Fetched env request w instance →
    GetEnforcementAction instance = inl ea →
    DeletionRequested instance = false →
    Marked instance (record (StoreGet request) w) (Some marked) w1 →
    Synced marked (constraintKeyOf instance) ea w1 r →
    Pass request w (deferredReport env r)
| Pass_deleting instance ea r :
    Fetched env request w instance →
    GetEnforcementAction instance = inl ea →
    DeletionRequested instance = true →
    Deleted instance (constraintKeyOf instance) ea
      (record (StoreGet request) w) r →
    Pass request w (deferredReport env r).

End Paths.


(** The status of a constraint that is enforced and has no errors. *)
Definition enforcedStatus : HAStatus := {| Enforced := true; Errors := [] |}.

(** [env] with the answer of [r.opa.GetConstraint] replaced. *)
Definition withOpaGetErr (o : option GoError) (env : Env) : Env :=
  {| KnownEnforcementActions := KnownEnforcementActions env;
     AllStatuses := AllStatuses env;
     enabled := enabled env; getErr := getErr env;
     updateErr := updateErr env; updateStatusView := updateStatusView env;
     statusUpdateErr := statusUpdateErr env;
     opaGetErr := o;
     opaAddErr := opaAddErr env; opaRemoveErr := opaRemoveErr env;
     reportErr := reportErr env |}.

(** [r.opa.GetConstraint] on [o] returns an error in world [w]. *)
Definition fetchFails (env : Env) (o : Unstructured) (w : World) : Prop :=
  is_Some (opaGetErr env) ∨ engine w !! engineKey o = None.

(* ================================================================== *)
(** ** A small cluster to run the pass on

    One constraint of kind [K] named [a] with policy content [X] and
    enforcement action [deny], in the states a pass can find it in, and
    the collaborators answering in the ways the pass distinguishes. *)

Definition clusterEnv
    (update statusUpdate opaGet opaAdd opaRemove : option GoError)
    (view : Unstructured → option StatusValue) : Env :=
  {| KnownEnforcementActions := ["deny"; "dryrun"]%string;
     AllStatuses := [ActiveStatus; ErrorStatus];
     enabled := true; getErr := None;
     updateErr := update; updateStatusView := view;
     statusUpdateErr := statusUpdate;
     opaGetErr := opaGet; opaAddErr := opaAdd; opaRemoveErr := opaRemove;
     reportErr := fun _ _ => None |}.

(** Every call succeeds; a plain update stores the status it is sent. *)
Definition calmEnv : Env := clusterEnv None None None None None StatusField.

(** Every call succeeds; a plain update drops the status. *)
Definition pruningEnv : Env :=
  clusterEnv None None None None None (fun _ => None).

(** [r.Update] fails. *)
Definition updateConflictEnv : Env :=
  clusterEnv (Some (OtherError "conflict")) None None None None StatusField.

(** [r.Status().Update] fails. *)
Definition statusConflictEnv : Env :=
  clusterEnv None (Some (OtherError "conflict")) None None None StatusField.

(** [r.opa.AddConstraint] fails. *)
Definition badRuleEnv : Env :=
  clusterEnv None None None (Some (OtherError "bad rule")) None StatusField.

Definition K_a (deleting : bool) (finalizers : list string)
    (action : ActionField) (st : option StatusValue) : Unstructured :=
  {| GetKind := "K"; GetName := "a";
     DeletionRequested := deleting;
     GetFinalizers := finalizers;
     GetSpec := {| specEnforcementAction := action; specParameters := "X" |};
     StatusField := st |}.

(** Just created: no finalizer, no status. *)
Definition newK_a : Unstructured := K_a false [] (ActionString "deny") None.

(** No finalizer yet, but a status written earlier. *)
Definition reportedK_a : Unstructured :=
  K_a false [] (ActionString "deny")
      (Some (StatusHA {| Enforced := false;
                         Errors := [{| Message := "bad rule" |}] |})).

(** Carrying the finalizer, not yet registered. *)
Definition markedK_a : Unstructured :=
  K_a false [finalizerName] (ActionString "deny") None.

(** Registered, then deletion requested. *)
Definition deletingK_a : Unstructured :=
  K_a true [finalizerName] (ActionString "deny") (Some (StatusHA enforcedStatus)).

(** Deletion requested, enforcement action not a string. *)
Definition unreadableK_a : Unstructured :=
  K_a true [finalizerName] (ActionUnreadable "not a string")
      (Some (StatusHA enforcedStatus)).

(** Another policy content under the same identity. *)
Definition otherK_a : Unstructured :=
  {| GetKind := "K"; GetName := "a"; DeletionRequested := false;
     GetFinalizers := [finalizerName];
     GetSpec := {| specEnforcementAction := ActionString "deny";
                   specParameters := "Y" |};
     StatusField := None |}.

Definition clusterOf (o : Unstructured) (eng : gmap string Unstructured)
    (c : gmap string tags) : World :=
  {| store := {[GetName o := o]}; engine := eng; cache := c;
     calls := []; logs := [] |}.

Definition newWorld : World := clusterOf newK_a ∅ ∅.
Definition reportedWorld : World := clusterOf reportedK_a ∅ ∅.
Definition markedWorld : World := clusterOf markedK_a ∅ ∅.
Definition staleWorld : World :=
  clusterOf markedK_a {["K/a"%string := otherK_a]} ∅.
Definition deletingWorld : World :=
  clusterOf deletingK_a
    {["K/a"%string := SetStatusField None markedK_a]}
    {["K/a"%string := Tags "deny" ActiveStatus]}.
Definition unreadableWorld : World :=
  clusterOf unreadableK_a
    {["K/a"%string := SetStatusField None markedK_a]}
    {["K/a"%string := Tags "deny" ActiveStatus]}.

(** The heap of a pass that holds [markedK_a] (with its status set) at
    address [1]. *)
Definition passHeap : gmap positive Unstructured :=
  {[1%positive := withStatus {| Enforced := false; Errors := [] |} markedK_a]}.

(* ================================================================== *)
(** ** Vocabulary for the further properties *)

Definition isStoreUpdate (c : Call) : bool :=
  match c with StoreUpdate _ => true | _ => false end.

Definition isStatusUpdate (c : Call) : bool :=
  match c with StoreStatusUpdate _ => true | _ => false end.

(** The character of the separator ["/"] of the cache key. *)
Definition slash : Ascii.ascii :=
  match "/"%string with
  | String c _ => c
  | EmptyString => Ascii.zero
  end.

(** The separator character occurs in [s]. *)
Fixpoint hasSlash (s : string) : bool :=
  match s with
  | EmptyString => false
  | String c rest => if Ascii.eqb c slash then true else hasSlash rest
  end.

(** The sum of the counts reported for the cells [ts] over cache [c]. *)
Definition sumCounts (c : gmap string tags) (ts : list tags) : Z :=
  foldr (fun t acc => tagCount c t + acc) 0 ts.

(** The entries of [c] whose tag is a cell of the metrics table. *)
Definition knownEntries (env : Env) (c : gmap string tags) : gmap string tags :=
  filter (fun kv => kv.2 ∈ cells env) c.

(** The cells whose report the reporter rejects, in table order. *)
Definition rejectedCells (env : Env) (c : gmap string tags) : list tags :=
  filter (fun t => is_Some (reportErr env t (tagCount c t))) (cells env).

(** The collaborators of [calmEnv] with a reporter that rejects every
    report on the [dryrun] action. *)
Definition deafReporterEnv : Env :=
  {| KnownEnforcementActions := ["deny"; "dryrun"]%string;
     AllStatuses := [ActiveStatus; ErrorStatus];
     enabled := true; getErr := None;
     updateErr := None; updateStatusView := StatusField;
     statusUpdateErr := None;
     opaGetErr := None; opaAddErr := None; opaRemoveErr := None;
     reportErr := fun t _ =>
       if decide (enforcementAction t = "dryrun"%string)
       then Some (OtherError "view not registered") else None |}.

(** The controller switched off. *)
Definition disabledEnv : Env :=
  {| KnownEnforcementActions := ["deny"; "dryrun"]%string;
     AllStatuses := [ActiveStatus; ErrorStatus];
     enabled := false; getErr := None;
     updateErr := None; updateStatusView := StatusField;
     statusUpdateErr := None;
     opaGetErr := None; opaAddErr := None; opaRemoveErr := None;
     reportErr := fun _ _ => None |}.

(** Deletion requested on an object that never got the finalizer. *)
Definition unmarkedDeletingK_a : Unstructured :=
  K_a true [] (ActionString "deny") None.

(** Marked, with a status that is not an [HAStatus]. *)
Definition garbledK_a : Unstructured :=
  K_a false [finalizerName] (ActionString "deny") (Some (StatusOpaque "[]")).

(** Marked and enforced by an earlier pass. *)
Definition enforcedK_a : Unstructured :=
  K_a false [finalizerName] (ActionString "deny") (Some (StatusHA enforcedStatus)).

(** A cache with two active [deny] rules, one failing [dryrun] rule and
    one rule whose action is not in the table. *)
Definition mixedCache : gmap string tags :=
  {[ "K/a"%string := Tags "deny" ActiveStatus;
     "K/b"%string := Tags "deny" ActiveStatus;
     "K/c"%string := Tags "dryrun" ErrorStatus;
     "K/d"%string := Tags "warn" ActiveStatus ]}.

Definition mixedWorld : World :=
  {| store := ∅; engine := ∅; cache := mixedCache; calls := []; logs := [] |}.

(** The log lines written by one pass started in world [w]. *)
Definition passLogs (env : Env) (request : string) (w : World) : list string :=
  drop (length (logs w)) (logs (Reconcile env request w).2).

(** The lines of [ls] that are the message [msg]. *)
Definition linesOf (msg : string) (ls : list string) : list string :=
  filter (fun l => l = msg) ls.

Global Arguments linesOf : simpl never.

(** The count a call hands to the reporter; the other calls carry
    none. *)
Definition reportedCount (c : Call) : Z :=
  match c with
  | ReportConstraints _ v => v
  | _ => 0
  end.

(** The sum of the counts handed to the reporter in a sequence of
    calls. *)
Definition reportedTotal (cs : list Call) : Z :=
  foldr (fun c acc => reportedCount c + acc) 0 cs.

(** The calls one run of [reportTotalConstraints] makes in world [w]. *)
Definition aggregationCalls (env : Env) (w : World) : list Call :=
  drop (length (calls w)) (calls (reportTotalConstraints env w)).

(** [r.opa.RemoveConstraint] fails with an error that is not an
    unrecognized-constraint error. *)
Definition engineDownEnv : Env :=
  clusterEnv None None None None (Some (OtherError "engine down")) StatusField.

(* ================================================================== *)
(** ** Lemmas on the cache and the aggregation *)

Section Aggregation.

Implicit Types (c : gmap string tags) (t : tags).

Lemma tagCount_empty t : tagCount ∅ t = 0.
Proof. unfold tagCount. by rewrite map_filter_empty, map_size_empty. Qed.

Lemma tagCount_insert_fresh c k v t :
  c !! k = None →
  tagCount (<[k := v]> c) t = tagCount c t + (if decide (v = t) then 1 else 0).
Proof.
  intros Hk. unfold tagCount. case_decide as Hv.
  - rewrite map_filter_insert_True by done.
    rewrite map_size_insert_None; [lia |].
    by rewrite map_lookup_filter, Hk.
  - rewrite map_filter_insert_False by done.
    rewrite delete_id by done. lia.
Qed.

Lemma tagCount_nonneg c t : 0 ≤ tagCount c t.
Proof. unfold tagCount. lia. Qed.

Lemma countTotals_spec c t : totalsAt (countTotals c) t = tagCount c t.
Proof.
  unfold countTotals. revert t.
  apply (map_fold_weak_ind
           (fun totals m => ∀ t, totalsAt totals t = tagCount m t)).
  - intros t. by rewrite tagCount_empty.
  - intros k v m totals Hk IH t.
    rewrite tagCount_insert_fresh by done. unfold totalsAt in *.
    case_decide as Hv.
    + subst v. rewrite lookup_insert_eq. simpl. by rewrite IH.
    + rewrite lookup_insert_ne by done. rewrite IH. lia.
Qed.

End Aggregation.

Section ReportFrame.

Variable env : Env.

Lemma reportCell_frame totals a w s :
  let w' := reportCell env totals a w s in
  store w' = store w ∧ engine w' = engine w ∧ cache w' = cache w ∧
  calls w' = calls w ++ [ReportConstraints (Tags a s) (totalsAt totals (Tags a s))].
Proof. unfold reportCell, reportConstraints. by case_match. Qed.

Lemma reportRow_frame totals a ss w :
  let w' := foldl (reportCell env totals a) w ss in
  store w' = store w ∧ engine w' = engine w ∧ cache w' = cache w ∧
  calls w' = calls w ++
    ((fun s => ReportConstraints (Tags a s) (totalsAt totals (Tags a s))) <$> ss).
Proof.
  revert w. induction ss as [|s ss IH]; intros w; simpl.
  - by rewrite app_nil_r.
  - destruct (IH (reportCell env totals a w s)) as (-> & -> & -> & ->).
    destruct (reportCell_frame totals a w s) as (-> & -> & -> & ->).
    by rewrite <- app_assoc.
Qed.

Lemma row_cells {B} (f : tags → B) a (ss : list Status) :
  (fun s => f (Tags a s)) <$> ss = f <$> (s ← ss; [Tags a s]).
Proof.
  induction ss as [|s ss IHs]; [done |].
  rewrite bind_cons, fmap_app, <- IHs. done.
Qed.

Lemma reportTable_frame totals acts w :
  let w' := foldl (fun w a => foldl (reportCell env totals a) w (AllStatuses env))
                  w acts in
  store w' = store w ∧ engine w' = engine w ∧ cache w' = cache w ∧
  calls w' = calls w ++
    ((fun t => ReportConstraints t (totalsAt totals t)) <$>
       (a ← acts; s ← AllStatuses env; [Tags a s])).
Proof.
  revert w. induction acts as [|a acts IH]; intros w; simpl.
  - by rewrite app_nil_r.
  - destruct (IH (foldl (reportCell env totals a) w (AllStatuses env)))
      as (-> & -> & -> & ->).
    destruct (reportRow_frame totals a (AllStatuses env) w) as (-> & -> & -> & ->).
    repeat split; try done.
    rewrite <- app_assoc. f_equal. rewrite fmap_app. f_equal.
    exact (row_cells (fun t => ReportConstraints t (totalsAt totals t)) a _).
Qed.

Lemma reportTotalConstraints_frame w :
  let w' := reportTotalConstraints env w in
  store w' = store w ∧ engine w' = engine w ∧ cache w' = cache w ∧
  calls w' = calls w ++ reportCalls env (cache w).
Proof.
  unfold reportTotalConstraints.
  destruct (reportTable_frame (countTotals (cache w))
              (KnownEnforcementActions env) w) as (-> & -> & -> & ->).
  repeat split; try done.
  f_equal. unfold reportCalls, cells.
  apply list_fmap_ext. intros _ t _. by rewrite countTotals_spec.
Qed.

End ReportFrame.

Section Cells.

Variable env : Env.

Lemma elem_of_cells t :
  t ∈ cells env ↔
  enforcementAction t ∈ KnownEnforcementActions env ∧ status t ∈ AllStatuses env.
Proof.
  unfold cells. rewrite list_elem_of_bind. split.
  - intros (a & Ht & Ha). apply list_elem_of_bind in Ht as (s & Ht & Hs).
    apply list_elem_of_singleton in Ht as ->. done.
  - intros [Ha Hs]. exists (enforcementAction t). split; [| done].
    apply list_elem_of_bind. exists (status t). split; [| done].
    apply list_elem_of_singleton. by destruct t.
Qed.

Lemma NoDup_cells :
  NoDup (KnownEnforcementActions env) → NoDup (AllStatuses env) →
  NoDup (cells env).
Proof.
  intros Ha Hs. unfold cells. apply NoDup_bind; [| | done].
  - intros a1 a2 t _ _ H1 H2.
    apply list_elem_of_bind in H1 as (s1 & H1 & _).
    apply list_elem_of_bind in H2 as (s2 & H2 & _).
    apply list_elem_of_singleton in H1, H2. congruence.
  - intros a _. apply NoDup_bind; [| | done].
    + intros s1 s2 t _ _ H1 H2.
      apply list_elem_of_singleton in H1, H2. congruence.
    + intros s _. apply NoDup_singleton.
Qed.

End Cells.

(* ================================================================== *)
(** ** Lemmas on finalizers and on the object helpers *)

Section Finalizers.

Implicit Types (s : string) (items : list string) (o : Unstructured).

Lemma containsString_elem_of s items : containsString s items = true ↔ s ∈ items.
Proof.
  induction items as [|item rest IH]; simpl.
  - split; [done | by intros ?%elem_of_nil].
  - case_decide as Heq.
    + subst. split; [intros _; by left | done].
    + rewrite IH. split; [by right |].
      intros [?|?]%elem_of_cons; [congruence | done].
Qed.

Lemma elem_of_removeString s x items :
  x ∈ removeString s items ↔ x ∈ items ∧ x ≠ s.
Proof.
  induction items as [|item rest IH]; simpl.
  - split; [by intros ?%elem_of_nil | by intros [?%elem_of_nil _]].
  - destruct (decide (item = s)) as [-> | Hne].
    + rewrite decide_False by (intros H; by apply H).
      rewrite elem_of_cons, IH. intuition congruence.
    + rewrite decide_True by done.
      rewrite !elem_of_cons, IH. intuition congruence.
Qed.

Lemma HasFinalizer_attach o :
  HasFinalizer (SetFinalizers (GetFinalizers o ++ [finalizerName]) o) = true.
Proof.
  unfold HasFinalizer. simpl. apply containsString_elem_of.
  apply elem_of_app. right. by left.
Qed.

Lemma HasFinalizer_RemoveFinalizer o : HasFinalizer (RemoveFinalizer o) = false.
Proof.
  unfold HasFinalizer, RemoveFinalizer. simpl.
  apply not_true_is_false. rewrite containsString_elem_of, elem_of_removeString.
  intros [_ Hne]. by apply Hne.
Qed.

Lemma HasFinalizer_SetStatusField st o :
  HasFinalizer (SetStatusField st o) = HasFinalizer o.
Proof. done. Qed.

End Finalizers.

Section ReportProjections.

Variables (env : Env) (w : World).

Lemma reportTotalConstraints_store : store (reportTotalConstraints env w) = store w.
Proof. apply reportTotalConstraints_frame. Qed.

Lemma reportTotalConstraints_engine : engine (reportTotalConstraints env w) = engine w.
Proof. apply reportTotalConstraints_frame. Qed.

Lemma reportTotalConstraints_cache : cache (reportTotalConstraints env w) = cache w.
Proof. apply reportTotalConstraints_frame. Qed.

Lemma reportTotalConstraints_calls :
  calls (reportTotalConstraints env w) = calls w ++ reportCalls env (cache w).
Proof. apply reportTotalConstraints_frame. Qed.

End ReportProjections.

Lemma isReport_reportCalls env c : List.filter isReport (reportCalls env c) = reportCalls env c.
Proof.
unfold reportCalls. induction (cells env) as [|t ts IH]; [done |].
rewrite fmap_cons. simpl. f_equal. exact IH.
Qed.

Lemma isOpaCall_reportCalls env c : List.filter isOpaCall (reportCalls env c) = [].
Proof. unfold reportCalls. by induction (cells env). Qed.

Lemma isOpaWrite_reportCalls env c : List.filter isOpaWrite (reportCalls env c) = [].
Proof. unfold reportCalls. by induction (cells env). Qed.

Lemma not_report_elem_of env c (x : Call) :
isReport x = false → x ∈ reportCalls env c → False.
Proof.
unfold reportCalls. intros Hx (t & -> & _)%list_elem_of_fmap. done.
Qed.

Lemma elem_of_logs_reportTotalConstraints env w (m : string) :
  m ∈ logs w → m ∈ logs (reportTotalConstraints env w).
Proof.
  unfold reportTotalConstraints. generalize (countTotals (cache w)) as totals.
  intros totals. revert w.
  induction (KnownEnforcementActions env) as [|a acts IH]; intros w Hm; [done |].
  simpl. apply IH. clear IH. revert w Hm.
  induction (AllStatuses env) as [|s ss IHs]; intros w Hm; [done |].
  simpl. apply IHs. unfold reportCell, reportConstraints.
  case_match; simpl; [apply elem_of_app; by left | done].
Qed.

Section PathLemmas.

Variable env : Env.

Lemma Get_fetched request w instance :
  getErr env = None → store w !! request = Some instance →
  Get env request w = (inl instance, record (StoreGet request) w).
Proof. intros Hg Hs. unfold Get. simpl. by rewrite Hg, Hs. Qed.

Lemma SetHAStatus_readable instance st s :
  GetHAStatus instance = inl st →
  SetHAStatus instance s = inl (withStatus s instance).
Proof.
  unfold GetHAStatus, SetHAStatus.
  destruct (StatusField instance) as [[?|?]|]; by intros.
Qed.

Lemma SetHAStatus_withStatus s' instance s :
  SetHAStatus (withStatus s' instance) s = inl (withStatus s instance).
Proof. done. Qed.

Lemma ensureFinalizer_path instance w :
  Marked env instance w
    (ensureFinalizer env instance w).1 (ensureFinalizer env instance w).2.
Proof.
  unfold ensureFinalizer, Update.
  destruct (HasFinalizer instance) eqn:Hf; simpl; [by constructor |].
  destruct (updateErr env) as [e|] eqn:Hu; simpl.
  - by econstructor.
  - destruct (StatusField instance) as [st|] eqn:Hst; simpl.
    + pose proof (Marked_attached env instance w Hf Hu) as HM.
      by rewrite Hst in HM.
    + pose proof (Marked_attached env instance w Hf Hu) as HM.
      by rewrite Hst in HM.
Qed.

Lemma syncConstraint_path instance constraintKey ea w :
  Synced env instance constraintKey ea w
    (syncConstraint env instance constraintKey ea w).
Proof.
  unfold syncConstraint.
  destruct (GetHAStatus instance) as [st|e] eqn:Hst; [| by constructor].
  rewrite (SetHAStatus_readable _ _ _ Hst).
  unfold GetConstraint, cacheConstraint, AddConstraint, StatusUpdate. simpl.
  set (cleared := withStatus (set_Errors [] st) instance).
  assert (Hstale : stale env cleared w =
     match opaGetErr env with
     | Some _ => true
     | None => match engine w !! engineKey cleared with
               | Some c => negb (SemanticEqual cleared c) | None => true end
     end) by done.
  destruct (opaGetErr env) as [ge|] eqn:Hge;
    [| destruct (engine w !! engineKey cleared) as [c|] eqn:Hc;
       [destruct (SemanticEqual cleared c) eqn:Heq |] ];
    simpl in *.
  all: try destruct (opaAddErr env) as [ae|] eqn:Hae; simpl.
  all: destruct (statusUpdateErr env) as [se|] eqn:Hse; simpl.
  all: try (pose proof (Synced_add_failed env instance constraintKey ea w
                          st ae Hst Hstale Hae) as HS;
            simpl in HS; rewrite Hse in HS; exact HS).
  all: set (w1 := record (OpaGetConstraint cleared)
                    (log "handling constraint update" w)).
  all: try (exact (Synced_requeue env instance constraintKey ea w st _ se Hst
                     (Registered_added env cleared w1 Hstale Hae) Hse)).
  all: try (exact (Synced_requeue env instance constraintKey ea w st _ se Hst
                     (Registered_skipped env cleared w1 Hstale) Hse)).
  all: try (exact (Synced_ok env instance constraintKey ea w st _ Hst
                     (Registered_added env cleared w1 Hstale Hae) Hse)).
  all: try (exact (Synced_ok env instance constraintKey ea w st _ Hst
                     (Registered_skipped env cleared w1 Hstale) Hse)).
Qed.

Lemma handleDeletion_path instance constraintKey ea w :
  Deleted env instance constraintKey ea w
    (handleDeletion env instance constraintKey ea w).
Proof.
  unfold handleDeletion.
  destruct (HasFinalizer instance) eqn:Hf; [| by constructor].
  assert (Hconf : removalConfirmed env =
     match opaRemoveErr env with
     | None => true
     | Some e => IsUnrecognizedConstraint e
     end) by done.
  unfold Update, logRemoval.
  pose proof (Deleted_requeue env instance constraintKey ea w) as Hrq.
  pose proof (Deleted_ok env instance constraintKey ea w) as Hok.
  unfold RemoveConstraint in *.
  destruct (opaRemoveErr env) as [re|] eqn:Hre;
    [destruct (IsUnrecognizedConstraint re) eqn:Hun |]; simpl in *.
  all: try (by apply Deleted_engine_error).
  all: destruct (updateErr env) as [ue|] eqn:Hue; simpl; eauto.
Qed.

Lemma Reconcile_path request w : Pass env request w (Reconcile env request w).
Proof.
  unfold Reconcile.
  destruct (enabled env) eqn:Hen; simpl; [| by constructor].
  destruct (Get env request w) as [[instance|e] w0] eqn:HG.
  - assert (Fetched env request w instance ∧ w0 = record (StoreGet request) w)
      as [HF ->].
    { unfold Get, Fetched in *. destruct (getErr env); [done |].
      simpl in HG. destruct (store w !! request); by simplify_eq. }
    change (Join [GetKind instance; GetName instance] "/")
      with (constraintKeyOf instance).
    destruct (GetEnforcementAction instance) as [ea|e] eqn:Hea;
      [| by econstructor].
    unfold reconcileInstance, DeletionTimestampIsZero.
    destruct (DeletionRequested instance) eqn:Hdel; simpl.
    + eapply Pass_deleting; eauto using handleDeletion_path.
    + pose proof (ensureFinalizer_path instance (record (StoreGet request) w))
        as HM.
      destruct (ensureFinalizer env instance (record (StoreGet request) w))
        as [[marked|] w1]; simpl in HM.
      * eapply Pass_active; eauto using syncConstraint_path.
      * eapply Pass_marker_requeue; eauto.
  - assert (w0 = record (StoreGet request) w) as ->.
    { unfold Get in HG. destruct (getErr env); [by simplify_eq |].
      simpl in HG. destruct (store w !! request); by simplify_eq. }
    pose proof (Pass_get_failed env request w e Hen) as HP.
    rewrite HG in HP. specialize (HP eq_refl).
    by destruct (IsNotFound e).
Qed.

End PathLemmas.


(* ================================================================== *)
(** ** Case analysis of a pass *)

Ltac norm_world :=
  repeat first
    [ rewrite reportTotalConstraints_store in *
    | rewrite reportTotalConstraints_engine in *
    | rewrite reportTotalConstraints_cache in *
    | rewrite reportTotalConstraints_calls in *
    | rewrite <- app_assoc in *
    | rewrite drop_app_length in *
    | rewrite drop_all in *
    | progress simpl in * ].

(** [H : c ∈ l] for an explicit call list [l], possibly ending in the
    reports of an aggregation: one goal per position [c] can be at. *)
Ltac split_calls H :=
  repeat (rewrite ?elem_of_app, ?elem_of_cons, ?elem_of_nil in H);
  repeat match type of H with _ ∨ _ => destruct H as [H | H] end;
  try discriminate H; try (by destruct H);
  try (by apply not_report_elem_of in H).

Ltac pick_call :=
  repeat first [ apply list_elem_of_here | apply list_elem_of_further ].

Ltac inv_block :=
  match goal with
  | H : Marked _ _ _ _ _ |- _ => inversion H; subst; clear H
  | H : Synced _ _ _ _ _ _ |- _ => inversion H; subst; clear H
  | H : Registered _ _ _ _ |- _ => inversion H; subst; clear H
  | H : Deleted _ _ _ _ _ _ |- _ => inversion H; subst; clear H
  end.

Ltac subst_lets := repeat match goal with x := _ |- _ => subst x end.

Ltac use_fetched :=
  match goal with
  | H : Fetched _ _ _ _ |- _ =>
      let Hen := fresh "Hen" in
      let Hg := fresh "Hg" in
      let Hs := fresh "Hs" in
      destruct H as (Hen & Hg & Hs)
  end.

(** One goal per path of the pass [Reconcile env request w], with the
    result and the final world written out. *)
Ltac pass_paths env request w :=
  unfold passCalls in *;
  let HP := fresh "HP" in
  pose proof (Reconcile_path env request w) as HP;
  let r := fresh "r" in
  let Hr := fresh "Hr" in
  remember (Reconcile env request w) as r eqn:Hr in *; clear Hr;
  destruct HP; repeat (inv_block; subst_lets);
  unfold deferredReport, RemoveConstraint, withStatus, addConstraintKey,
    deleteConstraintKey in *;
  repeat (case_match; simplify_eq);
  norm_world.

(* ================================================================== *)
(** ** Lemmas on two passes and on the engine fetch *)

Lemma SetStatusField_same o : SetStatusField (StatusField o) o = o.
Proof. by destruct o. Qed.

Lemma stale_false env o w :
  stale env o w = false →
  opaGetErr env = None ∧
  ∃ c, engine w !! engineKey o = Some c ∧ GetSpec o = GetSpec c.
Proof.
  unfold stale, SemanticEqual. destruct (opaGetErr env); [done |].
  destruct (engine w !! engineKey o) as [c|]; [| done].
  intros Heq%negb_false_iff%bool_decide_eq_true. eauto.
Qed.

(** A pass over an object that is marked, enforced, registered with the
    same content and filed as active changes nothing but the call
    sequence. *)
Lemma synced_pass env request w o c ea :
  enabled env = true → getErr env = None → opaGetErr env = None →
  store w !! request = Some o →
  GetName o = request →
  DeletionRequested o = false →
  HasFinalizer o = true →
  StatusField o = Some (StatusHA enforcedStatus) →
  GetEnforcementAction o = inl ea →
  engine w !! engineKey o = Some c →
  GetSpec o = GetSpec c →
  cache w !! constraintKeyOf o = Some (Tags ea ActiveStatus) →
  List.filter isOpaCall (passCalls env request w) = [OpaGetConstraint o] ∧
  List.filter isOpaWrite (passCalls env request w) = [] ∧
  (Reconcile env request w).1.2 = None ∧
  store (Reconcile env request w).2 = store w ∧
  engine (Reconcile env request w).2 = engine w ∧
  cache (Reconcile env request w).2 = cache w.
Proof.
  intros Hen Hg Hog Hs Hn Hdel Hf Hst Hea Hc Hspec Hcache.
  pass_paths env request w.
  all: try use_fetched; simplify_eq; try congruence.
  all: try (unfold Get in *; simpl in *; rewrite ?Hg, ?Hs in *; simpl in *;
            congruence).
  all: try match goal with
       | H : store _ !! _ = Some ?i |- _ =>
           assert (o = i) by congruence; subst i
       end.
  all: try congruence.
  all: unfold GetHAStatus in *; rewrite ?Hst in *; simplify_eq.
  all: try (unfold stale, SemanticEqual in *; simpl in *;
            change (engineKey _) with (engineKey o) in *;
            rewrite ?Hog, ?Hc in *; simpl in *;
            rewrite bool_decide_eq_true_2 in * by done; done).
  all: rewrite ?isOpaCall_reportCalls, ?isOpaWrite_reportCalls.
  all: pose proof (SetStatusField_same o) as Hsame; rewrite Hst in Hsame.
  all: change (set_Enforced true (set_Errors [] enforcedStatus))
         with enforcedStatus in *.
  all: change (set_Errors [] enforcedStatus) with enforcedStatus in *.
  all: rewrite ?Hsame.
  all: split_and!; try done.
  - apply alter_id. intros x Hx. by simplify_eq.
  - rewrite insert_id; [done |]. congruence.
Qed.

(** What a pass that completes the sync leaves behind. *)
Lemma completed_pass env request w instance :
  Fetched env request w instance →
  GetName instance = request →
  DeletionRequested instance = false →
  (Reconcile env request w).1 = ({| Requeue := false |}, None) →
  ∃ o c ea,
    store (Reconcile env request w).2 !! request = Some o ∧
    GetName o = request ∧ DeletionRequested o = false ∧
    HasFinalizer o = true ∧
    StatusField o = Some (StatusHA enforcedStatus) ∧
    GetEnforcementAction o = inl ea ∧
    engine (Reconcile env request w).2 !! engineKey o = Some c ∧
    GetSpec o = GetSpec c ∧
    cache (Reconcile env request w).2 !! constraintKeyOf o
      = Some (Tags ea ActiveStatus).
Proof.
  intros (Hen & Hg & Hs) Hn Hdel Hret.
  pass_paths env request w.
  all: try use_fetched; simplify_eq; try congruence.
  all: try (unfold Get in *; simpl in *; rewrite ?Hg, ?Hs in *; simpl in *;
            congruence).
  all: try match goal with
       | H : store _ !! _ = Some ?i |- _ =>
           assert (instance = i) by congruence; subst i
       end.
  all: try congruence.
  all: try match goal with
       | H : stale _ _ _ = false |- _ =>
           apply stale_false in H as (_ & c & Hc & Hspec); simpl in Hc, Hspec
       end.
  all: rewrite lookup_alter_eq, ?lookup_insert_eq, ?Hs; simpl.
  all: eexists _, _, _.
  all: split_and!;
    [ reflexivity | done | done
    | first [done | apply (HasFinalizer_attach instance)]
    | done | eassumption
    | first [exact Hc | apply lookup_insert_eq]
    | first [exact Hspec | reflexivity]
    | apply lookup_insert_eq ].
Qed.

Lemma syncConstraint_fetch_error env e instance key ea w c :
  engine w !! engineKey instance = Some c →
  GetSpec instance ≠ GetSpec c →
  syncConstraint (withOpaGetErr (Some e) env) instance key ea w
  = syncConstraint (withOpaGetErr None env) instance key ea w.
Proof.
  intros Hc Hne. unfold syncConstraint.
  destruct (GetHAStatus instance) as [st|] eqn:Hst; [| done].
  rewrite (SetHAStatus_readable _ _ _ Hst).
  unfold GetConstraint. simpl.
  change (engineKey (withStatus (set_Errors [] st) instance))
    with (engineKey instance).
  rewrite Hc. unfold SemanticEqual. simpl.
  rewrite bool_decide_eq_false_2 by done. done.
Qed.

(* ================================================================== *)
(** ** Properties of the reconciliation pass *)

(** C1 (amended).  Finalizer ordering.  Take any pass that fetched an
    object with deletion requested and the finalizer present.  If the
    enforcement action of the object can be read, the pass calls
    [RemoveConstraint] right after the fetch.  If the removal succeeds
    or fails with an unrecognized-constraint error, the pass next writes
    the object with the finalizer removed through [r.Update]; when that
    write succeeds the pass deletes the cache entry of the identity,
    reports the metrics of the new cache and returns no error; when that
    write fails the pass returns [Requeue: true] with a nil error and
    leaves cache and store as they were, with no metrics report.  For
    any other removal error the pass returns that error, makes no store
    write, and leaves cache and store (so the finalizer) as they were.
    If the enforcement action cannot be read, the pass returns that
    error right after the fetch.  In every case a store update made by
    the pass writes the object without the finalizer, and comes directly
    after the [RemoveConstraint] call, whose removal was confirmed. *)
Theorem deletion_finalizer_after_engine_removal env request w o :
  Fetched env request w o →
  DeletionRequested o = true →
  HasFinalizer o = true →
  (∀ ea, GetEnforcementAction o = inl ea →
     HasFinalizer (RemoveFinalizer o) = false ∧
     (removalConfirmed env = true → updateErr env = None →
        (Reconcile env request w).1 = ({| Requeue := false |}, None) ∧
        passCalls env request w
          = [StoreGet request; OpaRemoveConstraint o;
             StoreUpdate (RemoveFinalizer o)]
            ++ reportCalls env (cache (Reconcile env request w).2) ∧
        cache (Reconcile env request w).2
          = delete (constraintKeyOf o) (cache w) ∧
        store (Reconcile env request w).2 !! GetName o
          = Some (serverCopy env (RemoveFinalizer o))) ∧
     (removalConfirmed env = true → is_Some (updateErr env) →
        (Reconcile env request w).1 = ({| Requeue := true |}, None) ∧
        passCalls env request w
          = [StoreGet request; OpaRemoveConstraint o;
             StoreUpdate (RemoveFinalizer o)] ∧
        cache (Reconcile env request w).2 = cache w ∧
        store (Reconcile env request w).2 = store w) ∧
     (∀ e, opaRemoveErr env = Some e → IsUnrecognizedConstraint e = false →
        (Reconcile env request w).1 = ({| Requeue := false |}, Some e) ∧
        passCalls env request w = [StoreGet request; OpaRemoveConstraint o] ∧
        cache (Reconcile env request w).2 = cache w ∧
        store (Reconcile env request w).2 = store w)) ∧
  (∀ e, GetEnforcementAction o = inr e →
     (Reconcile env request w).1 = ({| Requeue := false |}, Some e) ∧
     passCalls env request w = [StoreGet request] ∧
     cache (Reconcile env request w).2 = cache w ∧
     store (Reconcile env request w).2 = store w) ∧
  (∀ obj, StoreUpdate obj ∈ passCalls env request w →
     removalConfirmed env = true ∧
     obj = RemoveFinalizer o ∧
     ∃ rest,
       passCalls env request w
       = StoreGet request :: OpaRemoveConstraint o :: StoreUpdate obj :: rest).
Proof.
  intros (Hen & Hg & Hs) Hdel Hf.
  pose proof (HasFinalizer_RemoveFinalizer o) as Hgone.
  pass_paths env request w.
  all: try use_fetched; simplify_eq; try congruence.
  all: try (unfold Get in *; simpl in *; rewrite ?Hg, ?Hs in *; simpl in *;
            congruence).
  all: try match goal with
       | H : store _ !! _ = Some ?i |- _ =>
           assert (o = i) by congruence; subst i
       end.
  all: try congruence.
  all: unfold removalConfirmed, is_Some in *.
  all: repeat match goal with
              | |- _ ∧ _ => split
              | |- ∀ _, _ => intro
              end.
  all: repeat match goal with H : ∃ _, _ |- _ => destruct H end.
  all: try match goal with H : StoreUpdate _ ∈ _ |- _ => split_calls H end.
  all: simplify_eq; try done; try congruence.
  all: try (exfalso; repeat case_match; simplify_eq; congruence).
  all: try (repeat case_match; simplify_eq; congruence).
  all: try by rewrite lookup_insert_eq.
  all: try by eexists.
Qed.

Lemma deletion_finalizer_after_engine_removal_witness :
  Fetched calmEnv "a" deletingWorld deletingK_a ∧
  DeletionRequested deletingK_a = true ∧
  HasFinalizer deletingK_a = true ∧
  (Reconcile calmEnv "a" deletingWorld).1 = ({| Requeue := false |}, None) ∧
  cache (Reconcile calmEnv "a" deletingWorld).2
  = delete "K/a"%string (cache deletingWorld).
Proof.
  assert (Fetched calmEnv "a" deletingWorld deletingK_a) as HF
    by (repeat split; reflexivity).
  split; [exact HF |]. split; [reflexivity |]. split; [reflexivity |].
  destruct (deletion_finalizer_after_engine_removal
              calmEnv "a" deletingWorld deletingK_a HF eq_refl eq_refl)
    as (Hread & _ & _).
  destruct (Hread "deny"%string eq_refl) as (_ & Hok & _).
  destruct (Hok eq_refl eq_refl) as (Hret & _ & Hcache & _).
  split; [exact Hret | exact Hcache].
Defined.

(** C1 as stated fails: deletion is requested, the finalizer is present
    and [RemoveConstraint] succeeds, but [r.Update] fails; the pass
    returns [Requeue: true], the cache entry is still there and no
    metrics are reported. *)
Lemma deletion_update_conflict_keeps_cache_entry :
  DeletionRequested deletingK_a = true ∧
  HasFinalizer deletingK_a = true ∧
  opaRemoveErr updateConflictEnv = None ∧
  OpaRemoveConstraint deletingK_a
    ∈ passCalls updateConflictEnv "a" deletingWorld ∧
  (Reconcile updateConflictEnv "a" deletingWorld).1
    = ({| Requeue := true |}, None) ∧
  cache (Reconcile updateConflictEnv "a" deletingWorld).2 !! "K/a"%string
    = Some (Tags "deny" ActiveStatus) ∧
  List.filter isReport (passCalls updateConflictEnv "a" deletingWorld) = [].
Proof. vm_compute. split_and!; try reflexivity. pick_call. Qed.

(** C2.  Registration failure.  In every pass in which [AddConstraint]
    is called and fails with [e], the fetched object is not being
    deleted; the pass hands [r.Status().Update] the object whose
    [status.Errors] is the single message of [e] (the list was emptied
    before the registration); a failure of that status write is logged
    and changes nothing of the result; the cache entry of the identity
    becomes (enforcement action, error); the metrics of the new cache
    are reported; and the pass returns [e]. *)
Theorem registration_failure_recorded env request w obj e :
  OpaAddConstraint obj ∈ passCalls env request w →
  opaAddErr env = Some e →
  ∃ instance ea written s,
    store w !! request = Some instance ∧
    DeletionRequested instance = false ∧
    GetEnforcementAction instance = inl ea ∧
    (Reconcile env request w).1 = ({| Requeue := false |}, Some e) ∧
    StoreStatusUpdate written ∈ passCalls env request w ∧
    GetName written = GetName instance ∧
    StatusField written = Some (StatusHA s) ∧
    Errors s = [{| Message := Error e |}] ∧
    (statusUpdateErr env = None → GetName instance = request →
       StatusField <$> store (Reconcile env request w).2 !! request
       = Some (Some (StatusHA s))) ∧
    (is_Some (statusUpdateErr env) →
       "could not report constraint error status"%string
         ∈ logs (Reconcile env request w).2) ∧
    cache (Reconcile env request w).2
      = <[constraintKeyOf instance := Tags ea ErrorStatus]> (cache w) ∧
    List.filter isReport (passCalls env request w)
      = reportCalls env (cache (Reconcile env request w).2).
Proof.
  intros Hadd He. pass_paths env request w.
  all: split_calls Hadd.
  all: try congruence.
  all: use_fetched.
  all: eexists _, _, _, _.
  all: split_and!;
    [ exact Hs | done | eassumption | try done | pick_call | try done
    | try reflexivity | try reflexivity | .. ].
  all: try apply isReport_reportCalls; try done.
  all: try (intros _ Hn; rewrite <- Hn, lookup_alter_eq, ?lookup_insert_eq;
            try (rewrite Hn, Hs); done).
  all: try (intros _; apply elem_of_logs_reportTotalConstraints; simpl;
            apply elem_of_app; right; by left).
Qed.

Lemma registration_failure_recorded_witness :
  OpaAddConstraint markedK_a ∈ passCalls badRuleEnv "a" markedWorld ∧
  opaAddErr badRuleEnv = Some (OtherError "bad rule") ∧
  (Reconcile badRuleEnv "a" markedWorld).1
  = ({| Requeue := false |}, Some (OtherError "bad rule")) ∧
  cache (Reconcile badRuleEnv "a" markedWorld).2
  = <[ "K/a"%string := Tags "deny" ErrorStatus ]> ∅.
Proof.
  assert (OpaAddConstraint markedK_a ∈ passCalls badRuleEnv "a" markedWorld)
    as H by (vm_compute; pick_call).
  split; [exact H |]. split; [reflexivity |].
  destruct (registration_failure_recorded
              badRuleEnv "a" markedWorld markedK_a (OtherError "bad rule")
              H eq_refl)
    as (instance & ea & written & s & Hs & _ & Hea & Hret & _ & _ & _ & _
        & _ & _ & Hcache & _).
  split; [exact Hret |].
  vm_compute in Hs. injection Hs as <-.
  vm_compute in Hea. injection Hea as <-.
  exact Hcache.
Defined.

(** C3 (amended).  Registration success.  In every pass that fetches the engine's
    content and then either skips the registration because the content
    is equal or registers successfully, the pass hands
    [r.Status().Update] the object with [status.Enforced = true] and no
    errors.  If that status write fails the pass returns
    [Requeue: true] with a nil error, and that ends the pass: cache
    untouched, no metrics.  Otherwise the cache entry of the identity
    becomes (enforcement action, active), the metrics of the new cache
    are reported and the pass returns no error. *)
Theorem registration_success_enforced env request w o :
  OpaGetConstraint o ∈ passCalls env request w →
  stale env o w = false ∨ opaAddErr env = None →
  ∃ instance ea written,
    store w !! request = Some instance ∧
    DeletionRequested instance = false ∧
    GetEnforcementAction instance = inl ea ∧
    StoreStatusUpdate written ∈ passCalls env request w ∧
    GetName written = GetName instance ∧
    StatusField written = Some (StatusHA enforcedStatus) ∧
    (is_Some (statusUpdateErr env) →
       (Reconcile env request w).1 = ({| Requeue := true |}, None) ∧
       cache (Reconcile env request w).2 = cache w ∧
       List.filter isReport (passCalls env request w) = []) ∧
    (statusUpdateErr env = None →
       (Reconcile env request w).1 = ({| Requeue := false |}, None) ∧
       cache (Reconcile env request w).2
         = <[constraintKeyOf instance := Tags ea ActiveStatus]> (cache w) ∧
       List.filter isReport (passCalls env request w)
         = reportCalls env (cache (Reconcile env request w).2) ∧
       (GetName instance = request →
          StatusField <$> store (Reconcile env request w).2 !! request
          = Some (Some (StatusHA enforcedStatus)))).
Proof.
  intros Hget Hreg. pass_paths env request w.
  all: split_calls Hget.
  all: simplify_eq; use_fetched.
  all: try (destruct Hreg; unfold stale in *; simpl in *; congruence).
  all: eexists _, _, _.
  all: split_and!;
    [ exact Hs | done | eassumption | pick_call | done | reflexivity | .. ].
  all: unfold is_Some; intros;
       repeat match goal with H : ∃ _, _ |- _ => destruct H end;
       simplify_eq; split_and!; try done; try apply isReport_reportCalls.
  all: try (intros Hn; rewrite <- Hn, lookup_alter_eq, ?lookup_insert_eq;
            try (rewrite Hn, Hs); done).
Qed.

Lemma registration_success_enforced_witness :
  OpaGetConstraint (withStatus {| Enforced := false; Errors := [] |} markedK_a)
    ∈ passCalls statusConflictEnv "a" markedWorld ∧
  opaAddErr statusConflictEnv = None ∧
  (Reconcile statusConflictEnv "a" markedWorld).1
  = ({| Requeue := true |}, None) ∧
  cache (Reconcile statusConflictEnv "a" markedWorld).2 = ∅.
Proof.
  assert (OpaGetConstraint
            (withStatus {| Enforced := false; Errors := [] |} markedK_a)
            ∈ passCalls statusConflictEnv "a" markedWorld)
    as H by (vm_compute; pick_call).
  split; [exact H |]. split; [reflexivity |].
  destruct (registration_success_enforced
              statusConflictEnv "a" markedWorld _ H (or_intror eq_refl))
    as (instance & ea & written & _ & _ & _ & _ & _ & _ & Hfail & _).
  destruct (Hfail (ex_intro _ _ eq_refl)) as (Hret & Hcache & _).
  split; [exact Hret | exact Hcache].
Defined.

(** C3 as stated fails: the object is active, the registration succeeds
    and the object with [status.Enforced = true] is handed to
    [r.Status().Update], but that write fails; the pass returns
    [Requeue: true], files nothing in the cache and reports no
    metrics. *)
Lemma status_conflict_skips_cache_update :
  DeletionRequested markedK_a = false ∧
  opaAddErr statusConflictEnv = None ∧
  OpaAddConstraint markedK_a ∈ passCalls statusConflictEnv "a" markedWorld ∧
  engine (Reconcile statusConflictEnv "a" markedWorld).2 !! "K/a"%string
    = Some markedK_a ∧
  StoreStatusUpdate (withStatus enforcedStatus markedK_a)
    ∈ passCalls statusConflictEnv "a" markedWorld ∧
  (Reconcile statusConflictEnv "a" markedWorld).1
    = ({| Requeue := true |}, None) ∧
  cache (Reconcile statusConflictEnv "a" markedWorld).2 !! "K/a"%string
    = None ∧
  List.filter isReport (passCalls statusConflictEnv "a" markedWorld) = [].
Proof. vm_compute. split_and!; try reflexivity; pick_call. Qed.

(** C4 (amended).  Idempotence.  After a pass that completed the sync
    of a resource, a second pass on the unchanged resource whose engine
    fetch succeeds makes no call that writes to the Policy Engine (no
    [AddConstraint], no [RemoveConstraint]); its only Policy Engine call
    is the one [GetConstraint] of the equality check.  It returns no
    error and leaves the store (status and finalizers included), the
    engine and the cache as the first pass left them. *)
Theorem second_pass_no_engine_write env1 env2 request w instance :
  Fetched env1 request w instance →
  GetName instance = request →
  DeletionRequested instance = false →
  (Reconcile env1 request w).1 = ({| Requeue := false |}, None) →
  enabled env2 = true → getErr env2 = None → opaGetErr env2 = None →
  ∃ o,
    store (Reconcile env1 request w).2 !! request = Some o ∧
    StatusField o = Some (StatusHA enforcedStatus) ∧
    HasFinalizer o = true ∧
    List.filter isOpaCall (passCalls env2 request (Reconcile env1 request w).2)
      = [OpaGetConstraint o] ∧
    List.filter isOpaWrite (passCalls env2 request (Reconcile env1 request w).2)
      = [] ∧
    (Reconcile env2 request (Reconcile env1 request w).2).1.2 = None ∧
    store (Reconcile env2 request (Reconcile env1 request w).2).2
      = store (Reconcile env1 request w).2 ∧
    engine (Reconcile env2 request (Reconcile env1 request w).2).2
      = engine (Reconcile env1 request w).2 ∧
    cache (Reconcile env2 request (Reconcile env1 request w).2).2
      = cache (Reconcile env1 request w).2.
Proof.
  intros HF Hn Hdel Hret Hen2 Hg2 Hog2.
  destruct (completed_pass env1 request w instance HF Hn Hdel Hret)
    as (o & c & ea & Hs & Hn' & Hdel' & Hf & Hst & Hea & Hc & Hspec & Hcache).
  exists o. split_and!; try done;
    eapply (synced_pass env2 request _ o c ea); eauto.
Qed.

Lemma second_pass_no_engine_write_witness :
  Fetched calmEnv "a" markedWorld markedK_a ∧
  (Reconcile calmEnv "a" markedWorld).1 = ({| Requeue := false |}, None) ∧
  List.filter isOpaWrite
    (passCalls calmEnv "a" (Reconcile calmEnv "a" markedWorld).2) = [] ∧
  cache (Reconcile calmEnv "a" (Reconcile calmEnv "a" markedWorld).2).2
  = cache (Reconcile calmEnv "a" markedWorld).2.
Proof.
  assert (Fetched calmEnv "a" markedWorld markedK_a) as HF
    by (repeat split; reflexivity).
  assert ((Reconcile calmEnv "a" markedWorld).1 = ({| Requeue := false |}, None))
    as Hret by (vm_compute; reflexivity).
  split; [exact HF |]. split; [exact Hret |].
  destruct (second_pass_no_engine_write
              calmEnv calmEnv "a" markedWorld markedK_a
              HF eq_refl eq_refl Hret eq_refl eq_refl eq_refl)
    as (o & _ & _ & _ & _ & Hwrites & _ & _ & _ & Hcache).
  split; [exact Hwrites | exact Hcache].
Defined.

(** C4 as stated fails: the second pass on the unchanged resource does
    call the Policy Engine, once, to fetch the content it compares
    with. *)
Lemma second_pass_fetches_from_engine :
  (Reconcile calmEnv "a" markedWorld).1 = ({| Requeue := false |}, None) ∧
  store (Reconcile calmEnv "a" markedWorld).2 !! "a"%string
    = Some (withStatus enforcedStatus markedK_a) ∧
  List.filter isOpaCall
    (passCalls calmEnv "a" (Reconcile calmEnv "a" markedWorld).2)
  = [OpaGetConstraint (withStatus enforcedStatus markedK_a)].
Proof. vm_compute. split_and!; reflexivity. Qed.




(** C6.  Status across the marker-attaching update.  When the pass
    attaches the finalizer to an object that has a status, the object it
    holds in memory after the block of lines 172-184 has that status
    again, whatever status the API server's copy came back with; the
    pass goes on to the sync with exactly this object. *)
Theorem marker_attach_preserves_status env instance st :
  HasFinalizer instance = false →
  StatusField instance = Some st →
  (∀ w marked w',
     ensureFinalizer env instance w = (Some marked, w') →
     StatusField marked = Some st ∧
     marked = SetStatusField (Some st) (attach instance) ∧
     HasFinalizer marked = true ∧
     calls w' = calls w ++ [StoreUpdate (attach instance)] ∧
     store w' !! GetName instance = Some (serverCopy env (attach instance))) ∧
  (∀ request w ea,
     Fetched env request w instance →
     GetEnforcementAction instance = inl ea →
     DeletionRequested instance = false →
     updateErr env = None →
     Reconcile env request w
     = deferredReport env
         (syncConstraint env (SetStatusField (Some st) (attach instance))
            (constraintKeyOf instance) ea
            (set_store
               (<[GetName instance := serverCopy env (attach instance)]> (store w))
               (record (StoreUpdate (attach instance))
                  (record (StoreGet request) w))))).
Proof.
  intros Hf Hst. split.
  - intros w marked w' Hens.
    pose proof (ensureFinalizer_path env instance w) as HM.
    rewrite Hens in HM. simpl in HM.
    inversion HM; subst; [congruence |].
    rewrite Hst. simpl. split_and!; try done.
    + apply (HasFinalizer_attach instance).
    + by rewrite lookup_insert_eq.
  - intros request w ea (Hen & Hg & Hs) Hea Hdel Hup.
    unfold Reconcile. rewrite Hen. simpl.
    rewrite (Get_fetched env request w instance Hg Hs), Hea.
    unfold reconcileInstance, DeletionTimestampIsZero, ensureFinalizer, Update.
    rewrite Hdel, Hf, Hup, Hst. done.
Qed.

Lemma marker_attach_preserves_status_witness :
  HasFinalizer reportedK_a = false ∧
  ∃ marked w',
    ensureFinalizer pruningEnv reportedK_a reportedWorld = (Some marked, w') ∧
    StatusField marked = StatusField reportedK_a ∧
    store w' !! "a"%string = Some (SetStatusField None (attach reportedK_a)).
Proof.
  split; [reflexivity |].
  exists (SetStatusField (StatusField reportedK_a) (attach reportedK_a)).
  exists (ensureFinalizer pruningEnv reportedK_a reportedWorld).2.
  assert (ensureFinalizer pruningEnv reportedK_a reportedWorld
          = (Some (SetStatusField (StatusField reportedK_a) (attach reportedK_a)),
             (ensureFinalizer pruningEnv reportedK_a reportedWorld).2))
    as Hrun by (vm_compute; reflexivity).
  split; [exact Hrun |].
  destruct (marker_attach_preserves_status pruningEnv reportedK_a
              (StatusHA {| Enforced := false;
                           Errors := [{| Message := "bad rule" |}] |})
              eq_refl eq_refl) as [Hblock _].
  destruct (Hblock _ _ _ Hrun) as (Hstatus & _ & _ & _ & Hstore).
  split; [exact Hstatus | exact Hstore].
Defined.

(** C7.  Aggregation completeness.  For every cache,
    [reportTotalConstraints] leaves the cache as it is and sends exactly
    the reports of the cells of the table, one after the other: a cell
    for every pair of a known enforcement action and a known status and
    for nothing else, no cell twice, each with the number of cache
    entries carrying that tag, zero included. *)
Theorem reportTotalConstraints_complete env w :
  NoDup (KnownEnforcementActions env) →
  NoDup (AllStatuses env) →
  cache (reportTotalConstraints env w) = cache w ∧
  calls (reportTotalConstraints env w)
  = calls w ++
    ((fun t => ReportConstraints t (tagCount (cache w) t)) <$> cells env) ∧
  NoDup (cells env) ∧
  (∀ a s, a ∈ KnownEnforcementActions env → s ∈ AllStatuses env →
          Tags a s ∈ cells env) ∧
  (∀ t, t ∈ cells env →
        enforcementAction t ∈ KnownEnforcementActions env ∧
        status t ∈ AllStatuses env).
Proof.
  intros Ha Hs. split_and!.
  - apply reportTotalConstraints_cache.
  - apply reportTotalConstraints_calls.
  - by apply NoDup_cells.
  - intros a s Hin1 Hin2. by apply elem_of_cells.
  - intros t Ht. by apply elem_of_cells.
Qed.

Lemma reportTotalConstraints_complete_witness :
  NoDup (KnownEnforcementActions calmEnv) ∧
  NoDup (AllStatuses calmEnv) ∧
  calls (reportTotalConstraints calmEnv deletingWorld)
  = [ReportConstraints (Tags "deny" ActiveStatus) 1;
     ReportConstraints (Tags "deny" ErrorStatus) 0;
     ReportConstraints (Tags "dryrun" ActiveStatus) 0;
     ReportConstraints (Tags "dryrun" ErrorStatus) 0].
Proof.
  assert (NoDup (KnownEnforcementActions calmEnv)) as Ha
    by (apply (bool_decide_unpack _); vm_compute; exact I).
  assert (NoDup (AllStatuses calmEnv)) as Hs
    by (apply (bool_decide_unpack _); vm_compute; exact I).
  split; [exact Ha |]. split; [exact Hs |].
  destruct (reportTotalConstraints_complete calmEnv deletingWorld Ha Hs)
    as (_ & Hcalls & _).
  rewrite Hcalls. vm_compute. reflexivity.
Defined.

(** C8.  What the engine is given.  [cacheConstraint] hands
    [AddConstraint] an object at a fresh address holding the contents of
    the instance without the status, and the instance itself is left as
    it was, status included.  Accordingly every [AddConstraint] call of
    a pass carries an object without status that agrees with the
    fetched resource in kind, name, policy content and deletion
    request. *)
Theorem cacheConstraint_passes_stripped_copy env :
  (∀ (instance : positive) (h : gmap positive Unstructured) w o,
     h !! instance = Some o →
     ∃ obj,
       Ptr.cacheConstraint env instance h w
       = Some ((cacheConstraint env o w).1,
               <[obj := RemoveStatusField o]> h,
               (cacheConstraint env o w).2) ∧
       h !! obj = None ∧
       obj ≠ instance ∧
       <[obj := RemoveStatusField o]> h !! instance = Some o ∧
       calls (cacheConstraint env o w).2
       = calls w ++ [OpaAddConstraint (RemoveStatusField o)]) ∧
  (∀ request w obj,
     OpaAddConstraint obj ∈ passCalls env request w →
     StatusField obj = None ∧
     ∃ instance,
       store w !! request = Some instance ∧
       GetKind obj = GetKind instance ∧
       GetName obj = GetName instance ∧
       GetSpec obj = GetSpec instance ∧
       DeletionRequested obj = DeletionRequested instance).
Proof.
  split.
  - intros instance h w o Ho.
    exists (fresh (dom h)).
    assert (h !! fresh (dom h) = None) as Hfresh.
    { apply not_elem_of_dom. apply is_fresh. }
    assert (fresh (dom h) ≠ instance) as Hne by congruence.
    split_and!; try done.
    + unfold Ptr.cacheConstraint, Ptr.DeepCopy, Ptr.RemoveNestedField_status.
      rewrite Ho. cbv zeta. rewrite alter_insert_eq, lookup_insert_eq.
      unfold cacheConstraint. by destruct (AddConstraint env _ w).
    + by rewrite lookup_insert_ne.
    + unfold cacheConstraint, AddConstraint. by destruct (opaAddErr env).
  - intros request w obj Hadd. pass_paths env request w.
    all: split_calls Hadd.
    all: simplify_eq; use_fetched.
    all: split; [done |]; eexists; split; [exact Hs | done].
Qed.

Lemma cacheConstraint_passes_stripped_copy_witness :
  passHeap !! 1%positive
    = Some (withStatus {| Enforced := false; Errors := [] |} markedK_a) ∧
  OpaAddConstraint markedK_a ∈ passCalls calmEnv "a" markedWorld ∧
  (∃ obj,
     obj ≠ 1%positive ∧
     <[obj := SetStatusField None markedK_a]> passHeap !! 1%positive
     = Some (withStatus {| Enforced := false; Errors := [] |} markedK_a)) ∧
  StatusField markedK_a = None.
Proof.
  assert (OpaAddConstraint markedK_a ∈ passCalls calmEnv "a" markedWorld)
    as Hadd by (vm_compute; pick_call).
  split; [reflexivity |]. split; [exact Hadd |].
  destruct (cacheConstraint_passes_stripped_copy calmEnv) as [Hptr Hpass].
  split.
  - destruct (Hptr 1%positive passHeap markedWorld _ eq_refl)
      as (obj & _ & _ & Hne & Hkept & _).
    exists obj. split; [exact Hne | exact Hkept].
  - exact (proj1 (Hpass "a"%string markedWorld markedK_a Hadd)).
Defined.

(** C9.  Fetch failure.  In every pass in which [GetConstraint] returns
    an error, the pass goes on to call [AddConstraint] with the
    status-free copy of the object, and the error it returns is the
    outcome of that registration, never the fetch error.  Moreover the
    whole pass is the same as when the fetch succeeds and returns a
    content that is not semantically equal. *)
Theorem fetch_error_overwrites_blindly :
  (∀ env request w o,
     OpaGetConstraint o ∈ passCalls env request w →
     fetchFails env o w →
     OpaAddConstraint (RemoveStatusField o) ∈ passCalls env request w ∧
     (Reconcile env request w).1.2 = opaAddErr env) ∧
  (∀ env request w instance c e,
     store w !! request = Some instance →
     engine w !! engineKey instance = Some c →
     SemanticEqual instance c = false →
     Reconcile (withOpaGetErr (Some e) env) request w
     = Reconcile (withOpaGetErr None env) request w).
Proof.
  split.
  - intros env request w o Hget Hfail. pass_paths env request w.
    all: split_calls Hget.
    all: simplify_eq.
    all: try (split; [pick_call | done]).
    all: exfalso; destruct Hfail as [[? ?] | ?]; unfold stale in *; simpl in *;
      repeat case_match; simplify_eq.
  - intros env request w instance c e Hs Hc Hne.
    apply bool_decide_eq_false in Hne.
    unfold Reconcile. simpl.
    destruct (enabled env); simpl; [| done].
    unfold Get. simpl. destruct (getErr env); [done |]. simpl. rewrite Hs.
    destruct (GetEnforcementAction instance) as [ea|]; [| done].
    unfold reconcileInstance.
    destruct (DeletionTimestampIsZero instance); [| done].
    change (ensureFinalizer (withOpaGetErr (Some e) env))
      with (ensureFinalizer (withOpaGetErr None env)).
    pose proof (ensureFinalizer_path (withOpaGetErr None env) instance
                  (record (StoreGet request) w)) as HM.
    destruct (ensureFinalizer (withOpaGetErr None env) instance
                (record (StoreGet request) w)) as [[marked|] w1]; [| done].
    simpl in HM. f_equal.
    inversion HM; subst; apply (syncConstraint_fetch_error _ _ _ _ _ _ c); done.
Qed.

Lemma fetch_error_overwrites_blindly_witness :
  OpaGetConstraint (withStatus {| Enforced := false; Errors := [] |} markedK_a)
    ∈ passCalls (withOpaGetErr (Some (OtherError "timeout")) calmEnv)
        "a" markedWorld ∧
  OpaAddConstraint markedK_a
    ∈ passCalls (withOpaGetErr (Some (OtherError "timeout")) calmEnv)
        "a" markedWorld ∧
  SemanticEqual markedK_a otherK_a = false ∧
  Reconcile (withOpaGetErr (Some (OtherError "timeout")) calmEnv) "a" staleWorld
  = Reconcile (withOpaGetErr None calmEnv) "a" staleWorld.
Proof.
  destruct fetch_error_overwrites_blindly as [Hadd Hsame].
  assert (OpaGetConstraint
            (withStatus {| Enforced := false; Errors := [] |} markedK_a)
            ∈ passCalls (withOpaGetErr (Some (OtherError "timeout")) calmEnv)
                "a" markedWorld)
    as Hget by (vm_compute; pick_call).
  split; [exact Hget |].
  split.
  - exact (proj1 (Hadd _ _ _ _ Hget (or_introl (ex_intro _ _ eq_refl)))).
  - split; [reflexivity |].
    exact (Hsame calmEnv "a"%string staleWorld markedK_a otherK_a
             (OtherError "timeout") eq_refl eq_refl eq_refl).
Defined.

(** C10.  Unreadable enforcement action.  When the enforcement action
    of the fetched object cannot be extracted, the pass returns that
    error right after the fetch: its only collaborator call is the
    [r.Get]; store (finalizers and status), engine and cache are left as
    they were, whether or not deletion is requested and the finalizer is
    present. *)
Theorem unreadable_action_blocks_pass env request w instance err :
  enabled env = true → getErr env = None →
  store w !! request = Some instance →
  GetEnforcementAction instance = inr err →
  (Reconcile env request w).1 = ({| Requeue := false |}, Some err) ∧
  passCalls env request w = [StoreGet request] ∧
  store (Reconcile env request w).2 = store w ∧
  engine (Reconcile env request w).2 = engine w ∧
  cache (Reconcile env request w).2 = cache w.
Proof.
  intros He Hg Hs Ha. unfold passCalls, Reconcile. rewrite He. simpl.
  rewrite (Get_fetched env request w instance Hg Hs), Ha. simpl.
  by rewrite drop_app_length.
Qed.

Lemma unreadable_action_blocks_pass_witness :
  DeletionRequested unreadableK_a = true ∧
  HasFinalizer unreadableK_a = true ∧
  GetEnforcementAction unreadableK_a = inr (OtherError "not a string") ∧
  (Reconcile calmEnv "a" unreadableWorld).1
    = ({| Requeue := false |}, Some (OtherError "not a string")) ∧
  passCalls calmEnv "a" unreadableWorld = [StoreGet "a"] ∧
  store (Reconcile calmEnv "a" unreadableWorld).2 = store unreadableWorld ∧
  cache (Reconcile calmEnv "a" unreadableWorld).2 = cache unreadableWorld.
Proof.
  split; [reflexivity |]. split; [reflexivity |]. split; [reflexivity |].
  destruct (unreadable_action_blocks_pass
              calmEnv "a" unreadableWorld unreadableK_a
              (OtherError "not a string") eq_refl eq_refl eq_refl eq_refl)
    as (Hret & Hcalls & Hstore & _ & Hcache).
  split; [exact Hret |]. split; [exact Hcalls |].
  split; [exact Hstore | exact Hcache].
Defined.

(* ================================================================== *)
(** ** Further lemmas on the finalizer helpers *)

Lemma removeString_filter s (items : list string) :
  removeString s items = filter (fun x => x ≠ s) items.
Proof.
  induction items as [|item rest IH]; [done |].
  simpl. rewrite filter_cons. destruct (decide (item ≠ s)); by rewrite IH.
Qed.

Lemma removeString_absent s (items : list string) :
  containsString s items = false → removeString s items = items.
Proof.
  intros Hc. induction items as [|item rest IH]; [done |].
  simpl in *. destruct (decide (item = s)) as [-> | Hne]; [done |].
  rewrite decide_True by done. f_equal. by apply IH.
Qed.

Lemma containsString_removeString_same s (items : list string) :
  containsString s (removeString s items) = false.
Proof.
  apply not_true_is_false. rewrite containsString_elem_of, elem_of_removeString.
  intros [_ Hne]. by apply Hne.
Qed.

Lemma NoDup_removeString s (items : list string) :
  NoDup items → NoDup (removeString s items).
Proof. rewrite removeString_filter. apply NoDup_filter. Qed.

Lemma NoDup_attach (items : list string) :
  containsString finalizerName items = false →
  NoDup items → NoDup (items ++ [finalizerName]).
Proof.
  intros Hc Hnd. apply NoDup_app. split_and!; [done | | apply NoDup_singleton].
  intros x Hx ->%list_elem_of_singleton.
  apply containsString_elem_of in Hx. congruence.
Qed.

(* ================================================================== *)
(** ** Further lemmas on the cache and its counts *)

Lemma tagCount_delete (c : gmap string tags) k t0 t :
  c !! k = Some t0 →
  tagCount c t = tagCount (delete k c) t + (if decide (t0 = t) then 1 else 0).
Proof.
  intros Hk. rewrite <- (insert_delete_id c k t0) at 1 by done.
  apply tagCount_insert_fresh. apply lookup_delete_eq.
Qed.

Lemma tagCount_insert (c : gmap string tags) k v t :
  tagCount (<[k := v]> c) t
  = tagCount c t
    - match c !! k with
      | Some t0 => if decide (t0 = t) then 1 else 0
      | None => 0
      end
    + (if decide (v = t) then 1 else 0).
Proof.
  destruct (c !! k) as [t0|] eqn:Hk.
  - rewrite <- insert_delete_eq.
    rewrite tagCount_insert_fresh by apply lookup_delete_eq.
    rewrite (tagCount_delete c k t0 t Hk). lia.
  - rewrite tagCount_insert_fresh by done. lia.
Qed.

Lemma sumCounts_insert_fresh (c : gmap string tags) k v (ts : list tags) :
  c !! k = None →
  sumCounts (<[k := v]> c) ts
  = sumCounts c ts + Z.of_nat (length (filter (fun t => v = t) ts)).
Proof.
  intros Hk. induction ts as [|t ts IH]; [done |].
  simpl. rewrite IH, tagCount_insert_fresh by done.
  rewrite filter_cons. destruct (decide (v = t)); simpl; lia.
Qed.

Lemma NoDup_filter_eq_length (v : tags) (ts : list tags) :
  NoDup ts →
  length (filter (fun t => v = t) ts) = if decide (v ∈ ts) then 1%nat else 0%nat.
Proof.
  induction 1 as [|t ts Hnotin Hnd IH]; [done |].
  rewrite filter_cons. destruct (decide (v = t)) as [-> | Hne]; simpl.
  - rewrite IH. rewrite decide_False by done.
    rewrite decide_True by (by left). done.
  - rewrite IH. destruct (decide (v ∈ ts)) as [Hin | Hnin].
    + rewrite decide_True by (by right). done.
    + rewrite decide_False; [done |].
      intros [?|?]%elem_of_cons; congruence.
Qed.

Lemma reportedTotal_reportCalls env (c : gmap string tags) :
  reportedTotal (reportCalls env c) = sumCounts c (cells env).
Proof.
  unfold reportCalls, reportedTotal, sumCounts.
  induction (cells env) as [|t ts IH]; [done |].
  rewrite fmap_cons. simpl. by rewrite IH.
Qed.

Lemma sumCounts_knownEntries env (c : gmap string tags) :
  NoDup (cells env) →
  sumCounts c (cells env) = Z.of_nat (size (knownEntries env c)).
Proof.
  intros Hnd. unfold knownEntries.
  induction c as [|k v c Hk _ IH] using map_first_key_ind.
  - rewrite map_filter_empty, map_size_empty.
    clear Hnd. induction (cells env) as [|t ts IHt]; [done |].
    simpl. rewrite tagCount_empty. apply IHt.
  - rewrite sumCounts_insert_fresh by done.
    rewrite NoDup_filter_eq_length by done. rewrite IH.
    destruct (decide (v ∈ cells env)) as [Hin | Hnin].
    + rewrite map_filter_insert_True by done.
      rewrite map_size_insert_None; [lia |].
      by rewrite map_lookup_filter, Hk.
    + rewrite map_filter_insert_False by done.
      rewrite delete_id by done. lia.
Qed.

(** The two loops of [reportTotalConstraints] as one loop over the
    cells. *)
Lemma reportTotalConstraints_cells env w :
  reportTotalConstraints env w
  = foldl (fun w' t =>
             reportCell env (countTotals (cache w))
               (enforcementAction t) w' (status t))
          w (cells env).
Proof.
  unfold reportTotalConstraints, cells.
  generalize (countTotals (cache w)) as totals. intros totals.
  generalize w as x.
  induction (KnownEnforcementActions env) as [|a acts IH]; intros x; [done |].
  rewrite bind_cons, foldl_app. simpl. rewrite IH. f_equal.
  clear IH. revert x.
  induction (AllStatuses env) as [|s ss IHs]; intros x; [done |].
  rewrite bind_cons. simpl. apply IHs.
Qed.

Lemma reportCell_logs env totals t w :
  logs (reportCell env totals (enforcementAction t) w (status t))
  = logs w ++
    (if decide (is_Some (reportErr env
                           (Tags (enforcementAction t) (status t))
                           (totalsAt totals (Tags (enforcementAction t) (status t)))))
     then ["failed to report total constraints"%string] else []).
Proof.
  unfold reportCell, reportConstraints.
  destruct (reportErr env _ _) as [e|]; simpl; [done |].
  by rewrite app_nil_r.
Qed.

Lemma reportTotalConstraints_logs env w :
  logs (reportTotalConstraints env w)
  = logs w ++
    ((fun _ => "failed to report total constraints"%string)
       <$> rejectedCells env (cache w)).
Proof.
  rewrite reportTotalConstraints_cells. unfold rejectedCells.
  generalize w at 2 3 as x.
  induction (cells env) as [|t ts IH]; intros x.
  - simpl. by rewrite app_nil_r.
  - simpl. rewrite IH, reportCell_logs, <- app_assoc. f_equal.
    rewrite filter_cons. rewrite countTotals_spec.
    replace (Tags (enforcementAction t) (status t)) with t by (by destruct t).
    by destruct (decide (is_Some (reportErr env t (tagCount (cache w) t)))).
Qed.

Lemma linesOf_report_failures msg (ts : list tags) :
  msg ≠ "failed to report total constraints"%string →
  linesOf msg ((fun _ => "failed to report total constraints"%string) <$> ts) = [].
Proof.
  intros Hne. unfold linesOf. induction ts as [|t ts IH]; [done |].
  rewrite fmap_cons, filter_cons_False by congruence. exact IH.
Qed.

(** [linesOf] over an explicit list of messages. *)
Ltac count_lines :=
  unfold linesOf;
  repeat first
    [ rewrite filter_app
    | rewrite filter_cons_True by reflexivity
    | rewrite filter_cons_False by discriminate
    | rewrite filter_nil ].

Lemma linesOf_app_report_failures msg (ls : list string) (ts : list tags) :
  msg ≠ "failed to report total constraints"%string →
  linesOf msg
    (ls ++ ((fun _ => "failed to report total constraints"%string) <$> ts))
  = linesOf msg ls.
Proof.
  intros Hne. unfold linesOf. rewrite filter_app.
  fold (linesOf msg ((fun _ => "failed to report total constraints"%string) <$> ts)).
  rewrite linesOf_report_failures by done. apply app_nil_r.
Qed.

(* ================================================================== *)
(** ** Further lemmas on the call sequence of a pass *)

Lemma notReport_reportCalls env c :
  List.filter (fun x => negb (isReport x)) (reportCalls env c) = [].
Proof. unfold reportCalls. by induction (cells env). Qed.

Lemma isStoreUpdate_reportCalls env c :
  List.filter isStoreUpdate (reportCalls env c) = [].
Proof. unfold reportCalls. by induction (cells env). Qed.

Lemma isStatusUpdate_reportCalls env c :
  List.filter isStatusUpdate (reportCalls env c) = [].
Proof. unfold reportCalls. by induction (cells env). Qed.

(** In a leaf of [pass_paths]: the fetched object is the one the
    statement speaks of. *)
Ltac same_instance instance :=
  try match goal with
      | H : store _ !! _ = Some ?i |- _ =>
          assert (instance = i) by congruence; subst i
      end.

Ltac filter_reports :=
  rewrite ?isReport_reportCalls, ?notReport_reportCalls,
    ?isOpaCall_reportCalls, ?isOpaWrite_reportCalls,
    ?isStoreUpdate_reportCalls, ?isStatusUpdate_reportCalls, ?app_nil_r.

(** The error a block returns, read off the block itself.  The two
    lemmas take [SetHAStatus] as it comes: nothing is used on when it
    fails. *)
Lemma syncConstraint_error env instance key ea w e :
  (syncConstraint env instance key ea w).1.1.2 = Some e →
  Requeue (syncConstraint env instance key ea w).1.1.1 = false ∧
  (GetHAStatus instance = inr e ∨
   ∃ st, GetHAStatus instance = inl st ∧
     (SetHAStatus instance (set_Errors [] st) = inr e ∨
      ∃ cleared,
        SetHAStatus instance (set_Errors [] st) = inl cleared ∧
        ((stale env cleared w = true ∧ opaAddErr env = Some e) ∨
         SetHAStatus cleared (set_Enforced true (set_Errors [] st)) = inr e))).
Proof.
  unfold syncConstraint.
  destruct (GetHAStatus instance) as [st|e0] eqn:Hst;
    [| intros [= ->]; split; [done | by left] ].
  destruct (SetHAStatus instance (set_Errors [] st)) as [cleared|e1] eqn:Hset;
    [| intros [= ->]; split; [done |]; right; exists st; split; [done | by left] ].
  unfold GetConstraint, cacheConstraint, AddConstraint, StatusUpdate, stale.
  cbn [engine record log fst snd].
  destruct (opaGetErr env) as [ge|] eqn:Hge;
    [| destruct (engine w !! engineKey cleared) as [c|] eqn:Hc;
       [destruct (SemanticEqual cleared c) eqn:Heq |] ];
    cbn [negb].
  all: try destruct (opaAddErr env) as [ae|] eqn:Hae.
  all: try destruct (SetHAStatus cleared (set_Errors _ _)) as [failed|e2].
  all: destruct (SetHAStatus cleared (set_Enforced true (set_Errors [] st)))
         as [enforced|e3] eqn:Hset2.
  all: destruct (statusUpdateErr env) as [se|].
  all: cbn [fst snd Requeue].
  all: intros [= <-].
  all: split; [done |].
  all: right; exists st; split; [done |]; right; exists cleared;
       split; [done |].
  all: first [ by right | left; split; [| done] ].
  all: rewrite ?Hge, ?Hc, ?Heq; done.
Qed.

Lemma handleDeletion_error env instance key ea w e :
  (handleDeletion env instance key ea w).1.1.2 = Some e →
  Requeue (handleDeletion env instance key ea w).1.1.1 = false ∧
  HasFinalizer instance = true ∧
  opaRemoveErr env = Some e ∧ IsUnrecognizedConstraint e = false.
Proof.
  unfold handleDeletion, RemoveConstraint, Update.
  destruct (HasFinalizer instance); [| done].
  destruct (opaRemoveErr env) as [re|];
    [destruct (IsUnrecognizedConstraint re) eqn:Hun |].
  all: cbn [negb].
  all: destruct (updateErr env); cbn [fst snd Requeue]; try done.
  all: by intros [= <-].
Qed.

Lemma deferredReport_result env r : (deferredReport env r).1 = r.1.1.
Proof. by destruct r as [[ret b] w]. Qed.

Lemma Reconcile_unmarked_deleting env request w instance ea :
  Fetched env request w instance →
  GetEnforcementAction instance = inl ea →
  DeletionRequested instance = true →
  HasFinalizer instance = false →
  Reconcile env request w
  = (({| Requeue := false |}, None), record (StoreGet request) w).
Proof.
  intros (Hen & Hg & Hs) Hea Hdel Hf.
  unfold Reconcile. rewrite Hen. simpl.
  rewrite (Get_fetched env request w instance Hg Hs), Hea.
  unfold reconcileInstance, DeletionTimestampIsZero, handleDeletion.
  by rewrite Hdel, Hf.
Qed.

(* ================================================================== *)
(** ** Properties of the finalizer helpers *)

(** X1.  [removeString] drops every occurrence of [s], keeps all other
    items in their order (it is the filter on "different from [s]"),
    never returns a longer list, and returns the list itself when [s]
    does not occur. *)
Theorem removeString_removes_every_occurrence s (items : list string) :
  containsString s (removeString s items) = false ∧
  (∀ x, x ≠ s →
        containsString x (removeString s items) = containsString x items) ∧
  removeString s items = filter (fun x => x ≠ s) items ∧
  (length (removeString s items) ≤ length items)%nat ∧
  (containsString s items = false → removeString s items = items).
Proof.
  split_and!.
  - apply containsString_removeString_same.
  - intros x Hx.
    destruct (containsString x items) eqn:Hc.
    + apply containsString_elem_of. apply elem_of_removeString.
      split; [by apply containsString_elem_of | done].
    + apply not_true_is_false. rewrite containsString_elem_of, elem_of_removeString.
      intros [Hin _]. apply containsString_elem_of in Hin. congruence.
  - apply removeString_filter.
  - rewrite removeString_filter. apply length_filter.
  - apply removeString_absent.
Qed.

Lemma removeString_removes_every_occurrence_witness :
  containsString "f" ["a"; "b"]%string = false ∧
  removeString "f" ["f"; "a"; "f"; "b"; "f"]%string = ["a"; "b"]%string ∧
  removeString "f" ["a"; "b"]%string = ["a"; "b"]%string.
Proof.
  destruct (removeString_removes_every_occurrence "f" ["a"; "b"]%string)
    as (_ & _ & _ & _ & Hid).
  split; [reflexivity |]. split; [reflexivity |]. exact (Hid eq_refl).
Defined.

(** X2.  Attaching the finalizer to an object that does not carry it and
    removing it again gives the object back. *)
Theorem RemoveFinalizer_attach_roundtrip o :
  HasFinalizer o = false → RemoveFinalizer (attach o) = o.
Proof.
  intros Hf. unfold RemoveFinalizer, attach. simpl.
  assert (removeString finalizerName (GetFinalizers o ++ [finalizerName])
          = GetFinalizers o) as ->.
  { unfold HasFinalizer in Hf. rewrite removeString_filter, filter_app.
    rewrite filter_cons_False by (intros H; by apply H).
    rewrite filter_nil, app_nil_r, <- removeString_filter.
    by apply removeString_absent. }
  by destruct o.
Qed.

Lemma RemoveFinalizer_attach_roundtrip_witness :
  HasFinalizer newK_a = false ∧ RemoveFinalizer (attach newK_a) = newK_a.
Proof.
  split; [reflexivity |].
  exact (RemoveFinalizer_attach_roundtrip newK_a eq_refl).
Defined.

(** X3.  [RemoveFinalizer] touches the finalizer list only: kind, name,
    deletion request, policy content and status are kept, every other
    finalizer stays, the result no longer has the finalizer, removing
    twice is removing once, and an object without the finalizer is
    returned as it is. *)
Theorem RemoveFinalizer_frame o :
  GetKind (RemoveFinalizer o) = GetKind o ∧
  GetName (RemoveFinalizer o) = GetName o ∧
  DeletionRequested (RemoveFinalizer o) = DeletionRequested o ∧
  GetSpec (RemoveFinalizer o) = GetSpec o ∧
  StatusField (RemoveFinalizer o) = StatusField o ∧
  (∀ f, f ≠ finalizerName →
        (f ∈ GetFinalizers (RemoveFinalizer o) ↔ f ∈ GetFinalizers o)) ∧
  HasFinalizer (RemoveFinalizer o) = false ∧
  RemoveFinalizer (RemoveFinalizer o) = RemoveFinalizer o ∧
  (HasFinalizer o = false → RemoveFinalizer o = o).
Proof.
  split_and!; try done.
  - intros f Hf. unfold RemoveFinalizer. simpl.
    rewrite elem_of_removeString. intuition congruence.
  - apply HasFinalizer_RemoveFinalizer.
  - unfold RemoveFinalizer. simpl.
    by rewrite (removeString_absent _ _ (containsString_removeString_same _ _)).
  - intros Hf. unfold RemoveFinalizer, HasFinalizer in *.
    rewrite removeString_absent by done. by destruct o.
Qed.

Lemma RemoveFinalizer_frame_witness :
  HasFinalizer newK_a = false ∧
  RemoveFinalizer newK_a = newK_a ∧
  GetFinalizers (RemoveFinalizer (K_a true ["other"; finalizerName]%string
                                     (ActionString "deny") None))
  = ["other"]%string.
Proof.
  destruct (RemoveFinalizer_frame newK_a) as (_ & _ & _ & _ & _ & _ & _ & _ & Hid).
  split; [reflexivity |]. split; [exact (Hid eq_refl) | reflexivity].
Defined.

(* ================================================================== *)
(** ** Properties of the constraints cache *)

(** X4.  [addConstraintKey] is an upsert that moves one count: the key
    then maps to the new tag, no other key changes, the number of
    entries grows by one exactly when the key was absent, and for every
    tag the count loses the key's old entry (if it carried that tag) and
    gains the new one (if it carries that tag).  Nothing but the cache
    changes. *)
Theorem addConstraintKey_moves_one_count k t w :
  cache (addConstraintKey k t w) !! k = Some t ∧
  (∀ k', k' ≠ k → cache (addConstraintKey k t w) !! k' = cache w !! k') ∧
  size (cache (addConstraintKey k t w))
  = match cache w !! k with
    | Some _ => size (cache w)
    | None => S (size (cache w))
    end ∧
  (∀ t', tagCount (cache (addConstraintKey k t w)) t'
         = tagCount (cache w) t'
           - match cache w !! k with
             | Some t0 => if decide (t0 = t') then 1 else 0
             | None => 0
             end
           + (if decide (t = t') then 1 else 0)) ∧
  store (addConstraintKey k t w) = store w ∧
  engine (addConstraintKey k t w) = engine w ∧
  calls (addConstraintKey k t w) = calls w.
Proof.
  unfold addConstraintKey. simpl. split_and!; try done.
  - rewrite lookup_insert_eq. by destruct t.
  - intros k' Hk'. by rewrite lookup_insert_ne.
  - destruct (cache w !! k) eqn:Hk.
    + by rewrite map_size_insert_Some.
    + by rewrite map_size_insert_None.
  - intros t'. rewrite tagCount_insert. by destruct t.
Qed.

(** X5.  [deleteConstraintKey] removes the key and takes its entry out
    of the count of its tag, leaving every other count and every other
    key as they were; deleting a key that is not there changes nothing. *)
Theorem deleteConstraintKey_drops_one_count k w :
  cache (deleteConstraintKey k w) !! k = None ∧
  (∀ k', k' ≠ k → cache (deleteConstraintKey k w) !! k' = cache w !! k') ∧
  (∀ t', tagCount (cache w) t'
         = tagCount (cache (deleteConstraintKey k w)) t'
           + match cache w !! k with
             | Some t0 => if decide (t0 = t') then 1 else 0
             | None => 0
             end) ∧
  (cache w !! k = None → cache (deleteConstraintKey k w) = cache w) ∧
  (∀ t, cache w !! k = None →
        cache (deleteConstraintKey k (addConstraintKey k t w)) = cache w).
Proof.
  unfold deleteConstraintKey, addConstraintKey. simpl. split_and!.
  - apply lookup_delete_eq.
  - intros k' Hk'. by rewrite lookup_delete_ne.
  - intros t'. destruct (cache w !! k) as [t0|] eqn:Hk.
    + by apply tagCount_delete.
    + rewrite delete_id by done. lia.
  - intros Hk. by apply delete_id.
  - intros t Hk. rewrite delete_insert_eq. by apply delete_id.
Qed.

Lemma deleteConstraintKey_drops_one_count_witness :
  cache newWorld !! "K/a"%string = None ∧
  cache (deleteConstraintKey "K/a"
           (addConstraintKey "K/a" (Tags "deny" ActiveStatus) newWorld))
  = cache newWorld.
Proof.
  split; [reflexivity |].
  destruct (deleteConstraintKey_drops_one_count "K/a" newWorld)
    as (_ & _ & _ & _ & Hround).
  exact (Hround (Tags "deny" ActiveStatus) eq_refl).
Defined.

(** X6.  With duplicate-free tables, the counts that one run of
    [reportTotalConstraints] hands to the reporter add up to the number
    of cache entries whose tag is a cell of the table; entries with an
    enforcement action or a status outside the tables are in no report,
    so the sum never exceeds the size of the cache, and equals it when
    every entry's tag is a cell. *)
Theorem reported_counts_sum env w :
  NoDup (KnownEnforcementActions env) →
  NoDup (AllStatuses env) →
  reportedTotal (aggregationCalls env w)
  = Z.of_nat (size (knownEntries env (cache w))) ∧
  reportedTotal (aggregationCalls env w) ≤ Z.of_nat (size (cache w)) ∧
  ((∀ k t, cache w !! k = Some t → t ∈ cells env) →
   reportedTotal (aggregationCalls env w) = Z.of_nat (size (cache w))).
Proof.
  intros Ha Hs. pose proof (NoDup_cells env Ha Hs) as Hnd.
  assert (reportedTotal (aggregationCalls env w)
          = Z.of_nat (size (knownEntries env (cache w)))) as Hsum.
  { unfold aggregationCalls.
    rewrite reportTotalConstraints_calls, drop_app_length.
    rewrite reportedTotal_reportCalls. by apply sumCounts_knownEntries. }
  split_and!; [done | |].
  - rewrite Hsum. apply inj_le. unfold knownEntries.
    apply map_subseteq_size, map_filter_subseteq.
  - intros Hall. rewrite Hsum. f_equal. f_equal. unfold knownEntries.
    apply map_filter_id. intros k t Hkt. simpl. eauto.
Qed.

Lemma reported_counts_sum_witness :
  NoDup (KnownEnforcementActions calmEnv) ∧
  NoDup (AllStatuses calmEnv) ∧
  size (cache mixedWorld) = 4%nat ∧
  reportedTotal (aggregationCalls calmEnv mixedWorld) = 3.
Proof.
  assert (NoDup (KnownEnforcementActions calmEnv)) as Ha
    by (apply (bool_decide_unpack _); vm_compute; exact I).
  assert (NoDup (AllStatuses calmEnv)) as Hs
    by (apply (bool_decide_unpack _); vm_compute; exact I).
  split; [exact Ha |]. split; [exact Hs |]. split; [reflexivity |].
  destruct (reported_counts_sum calmEnv mixedWorld Ha Hs) as (Hsum & _).
  rewrite Hsum. vm_compute. reflexivity.
Defined.

(** X7.  A reporter that rejects reports does not stop the aggregation:
    every cell is still reported, in table order and with the same
    counts as with a reporter that accepts everything, and each rejected
    report leaves exactly one line in the log. *)
Theorem reporter_errors_only_logged env w :
  calls (reportTotalConstraints env w) = calls w ++ reportCalls env (cache w) ∧
  logs (reportTotalConstraints env w)
  = logs w ++
    ((fun _ => "failed to report total constraints"%string)
       <$> rejectedCells env (cache w)) ∧
  cache (reportTotalConstraints env w) = cache w.
Proof.
  split_and!.
  - apply reportTotalConstraints_calls.
  - apply reportTotalConstraints_logs.
  - apply reportTotalConstraints_cache.
Qed.

(* ================================================================== *)
(** ** Properties of the cache key *)

(** X8.  The cache key of line 158 identifies the object as long as the
    kind contains no ['/']: two objects with slash-free kinds and the
    same key have the same kind and the same name.  Without that
    condition two different (kind, name) pairs can share a key. *)
Theorem constraintKey_injective_without_slash :
  (∀ o1 o2,
     hasSlash (GetKind o1) = false →
     hasSlash (GetKind o2) = false →
     constraintKeyOf o1 = constraintKeyOf o2 →
     GetKind o1 = GetKind o2 ∧ GetName o1 = GetName o2) ∧
  (∃ o1 o2,
     constraintKeyOf o1 = constraintKeyOf o2 ∧ GetKind o1 ≠ GetKind o2).
Proof.
  split.
  - intros o1 o2. unfold constraintKeyOf. simpl.
    generalize (GetName o1) as n1. generalize (GetName o2) as n2.
    generalize (GetKind o2) as k2. generalize (GetKind o1) as k1.
    induction k1 as [|c1 k1 IH]; intros [|c2 k2] n2 n1; simpl.
    + intros _ _ Heq. by simplify_eq.
    + intros _ Hs Heq. injection Heq as <- _.
      by rewrite Ascii.eqb_refl in Hs.
    + intros Hs _ Heq. injection Heq as -> _.
      by rewrite Ascii.eqb_refl in Hs.
    + intros Hs1 Hs2 Heq. injection Heq as -> Heq.
      destruct (Ascii.eqb c2 slash); [done |].
      destruct (IH k2 n2 n1 Hs1 Hs2 Heq) as [-> ->]. done.
  - exists {| GetKind := "K"; GetName := "a/b";
              DeletionRequested := false; GetFinalizers := [];
              GetSpec := GetSpec newK_a; StatusField := None |}.
    exists {| GetKind := "K/a"; GetName := "b";
              DeletionRequested := false; GetFinalizers := [];
              GetSpec := GetSpec newK_a; StatusField := None |}.
    split; [reflexivity | discriminate].
Qed.

Lemma constraintKey_injective_without_slash_witness :
  hasSlash (GetKind newK_a) = false ∧
  hasSlash (GetKind deletingK_a) = false ∧
  constraintKeyOf newK_a = constraintKeyOf deletingK_a ∧
  GetName newK_a = GetName deletingK_a.
Proof.
  destruct constraintKey_injective_without_slash as [Hinj _].
  split; [reflexivity |]. split; [reflexivity |]. split; [reflexivity |].
  exact (proj2 (Hinj newK_a deletingK_a eq_refl eq_refl eq_refl)).
Defined.

(* ================================================================== *)
(** ** Further properties of the reconciliation pass *)

(** X9.  A pass that gets no object, because the controller is disabled
    or because [r.Get] fails or finds nothing, changes nothing: store,
    engine and cache stay, the only call is the [r.Get] (none at all
    when disabled), no requeue is asked for, and an error is returned
    only for a [r.Get] failure other than not-found. *)
Theorem pass_without_object_changes_nothing env request w :
  (∀ instance, ¬ Fetched env request w instance) →
  store (Reconcile env request w).2 = store w ∧
  engine (Reconcile env request w).2 = engine w ∧
  cache (Reconcile env request w).2 = cache w ∧
  passCalls env request w = (if enabled env then [StoreGet request] else []) ∧
  (Reconcile env request w).1
  = ({| Requeue := false |},
     match getErr env with
     | Some e => if enabled env && negb (IsNotFound e) then Some e else None
     | None => None
     end).
Proof.
  intros Hnone. unfold passCalls, Reconcile, Get, Fetched in *.
  destruct (enabled env) eqn:Hen; simpl.
  - destruct (getErr env) as [e|] eqn:Hg; simpl.
    + destruct (IsNotFound e); simpl; by rewrite drop_app_length.
    + destruct (store w !! request) as [instance|] eqn:Hs.
      * by destruct (Hnone instance).
      * simpl. by rewrite drop_app_length.
  - rewrite drop_all. by destruct (getErr env).
Qed.

Lemma pass_without_object_changes_nothing_witness :
  (∀ instance, ¬ Fetched disabledEnv "a" deletingWorld instance) ∧
  passCalls disabledEnv "a" deletingWorld = [] ∧
  cache (Reconcile disabledEnv "a" deletingWorld).2 = cache deletingWorld.
Proof.
  assert (∀ instance, ¬ Fetched disabledEnv "a" deletingWorld instance) as H
    by (intros instance (Hen & _); discriminate Hen).
  split; [exact H |].
  destruct (pass_without_object_changes_nothing disabledEnv "a" deletingWorld H)
    as (_ & _ & Hcache & Hcalls & _).
  split; [exact Hcalls | exact Hcache].
Defined.

(** X10.  Deletion requested on an object without the finalizer: the
    pass makes no call besides the [r.Get], changes nothing and returns
    cleanly. *)
Theorem deleting_unmarked_pass_is_noop env request w instance ea :
  Fetched env request w instance →
  GetEnforcementAction instance = inl ea →
  DeletionRequested instance = true →
  HasFinalizer instance = false →
  Reconcile env request w
  = (({| Requeue := false |}, None), record (StoreGet request) w) ∧
  passCalls env request w = [StoreGet request].
Proof.
  intros HF Hea Hdel Hf.
  pose proof (Reconcile_unmarked_deleting env request w instance ea
                HF Hea Hdel Hf) as Heq.
  split; [exact Heq |]. unfold passCalls. rewrite Heq. simpl.
  by rewrite drop_app_length.
Qed.

Lemma deleting_unmarked_pass_is_noop_witness :
  Fetched calmEnv "a" (clusterOf unmarkedDeletingK_a ∅ ∅) unmarkedDeletingK_a ∧
  passCalls calmEnv "a" (clusterOf unmarkedDeletingK_a ∅ ∅) = [StoreGet "a"].
Proof.
  assert (Fetched calmEnv "a" (clusterOf unmarkedDeletingK_a ∅ ∅)
            unmarkedDeletingK_a) as HF by (repeat split; reflexivity).
  split; [exact HF |].
  exact (proj2 (deleting_unmarked_pass_is_noop calmEnv "a" _ _ "deny"
                  HF eq_refl eq_refl eq_refl)).
Defined.

(** X11.  When the update that attaches the finalizer fails, the pass
    asks for a requeue without an error and stops: the stored object is
    not marked, the engine is not called and the cache is untouched. *)
Theorem marker_update_failure_requeues env request w instance ea e :
  Fetched env request w instance →
  GetEnforcementAction instance = inl ea →
  DeletionRequested instance = false →
  HasFinalizer instance = false →
  updateErr env = Some e →
  (Reconcile env request w).1 = ({| Requeue := true |}, None) ∧
  passCalls env request w = [StoreGet request; StoreUpdate (attach instance)] ∧
  store (Reconcile env request w).2 = store w ∧
  engine (Reconcile env request w).2 = engine w ∧
  cache (Reconcile env request w).2 = cache w.
Proof.
  intros (Hen & Hg & Hs) Hea Hdel Hf Hup.
  unfold passCalls, Reconcile. rewrite Hen. simpl.
  rewrite (Get_fetched env request w instance Hg Hs), Hea.
  unfold reconcileInstance, DeletionTimestampIsZero, ensureFinalizer, Update.
  rewrite Hdel, Hf, Hup. simpl.
  by rewrite <- app_assoc, drop_app_length.
Qed.

Lemma marker_update_failure_requeues_witness :
  Fetched updateConflictEnv "a" newWorld newK_a ∧
  (Reconcile updateConflictEnv "a" newWorld).1 = ({| Requeue := true |}, None) ∧
  store (Reconcile updateConflictEnv "a" newWorld).2 = store newWorld.
Proof.
  assert (Fetched updateConflictEnv "a" newWorld newK_a) as HF
    by (repeat split; reflexivity).
  split; [exact HF |].
  destruct (marker_update_failure_requeues updateConflictEnv "a" newWorld newK_a
              "deny" (OtherError "conflict") HF eq_refl eq_refl eq_refl eq_refl)
    as (Hret & _ & Hstore & _).
  split; [exact Hret | exact Hstore].
Defined.

(** X12.  When the status of the object cannot be read as an
    [HAStatus], the pass returns that error before it talks to the
    engine: no engine call, engine and cache untouched, no status
    write. *)
Theorem unreadable_status_stops_sync env request w instance ea e :
  Fetched env request w instance →
  GetEnforcementAction instance = inl ea →
  DeletionRequested instance = false →
  HasFinalizer instance = true ∨ updateErr env = None →
  GetHAStatus instance = inr e →
  (Reconcile env request w).1 = ({| Requeue := false |}, Some e) ∧
  List.filter isOpaCall (passCalls env request w) = [] ∧
  List.filter isStatusUpdate (passCalls env request w) = [] ∧
  List.filter isReport (passCalls env request w) = [] ∧
  engine (Reconcile env request w).2 = engine w ∧
  cache (Reconcile env request w).2 = cache w.
Proof.
  intros (Hen & Hg & Hs) Hea Hdel Hmark Hst.
  assert (∃ raw, StatusField instance = Some (StatusOpaque raw)) as [raw Hraw].
  { unfold GetHAStatus in Hst.
    destruct (StatusField instance) as [[?|raw]|]; try done. eauto. }
  unfold passCalls, Reconcile. rewrite Hen. simpl.
  rewrite (Get_fetched env request w instance Hg Hs), Hea.
  unfold reconcileInstance, DeletionTimestampIsZero, ensureFinalizer, Update.
  rewrite Hdel. simpl.
  destruct (HasFinalizer instance) eqn:Hf; simpl.
  - unfold syncConstraint. rewrite Hst. simpl. by rewrite drop_app_length.
  - destruct Hmark as [? | Hup]; [done |]. rewrite Hup, Hraw. simpl.
    unfold syncConstraint, GetHAStatus. simpl.
    unfold GetHAStatus in Hst. rewrite Hraw in Hst. simplify_eq.
    by rewrite <- app_assoc, drop_app_length.
Qed.

Lemma unreadable_status_stops_sync_witness :
  Fetched calmEnv "a" (clusterOf garbledK_a ∅ ∅) garbledK_a ∧
  GetHAStatus garbledK_a = inr (OtherError "while getting HA status") ∧
  (Reconcile calmEnv "a" (clusterOf garbledK_a ∅ ∅)).1
  = ({| Requeue := false |}, Some (OtherError "while getting HA status")).
Proof.
  assert (Fetched calmEnv "a" (clusterOf garbledK_a ∅ ∅) garbledK_a) as HF
    by (repeat split; reflexivity).
  split; [exact HF |]. split; [reflexivity |].
  exact (proj1 (unreadable_status_stops_sync calmEnv "a" _ garbledK_a "deny" _
                  HF eq_refl eq_refl (or_introl eq_refl) eq_refl)).
Defined.

(** X13.  Metrics follow the cache.  In every pass the reports, if any,
    are the last calls of the pass, and either there is no report and
    the cache is as before, or the reports are exactly one aggregation
    over the cache as the pass leaves it. *)
Theorem metrics_follow_cache_mutation env request w :
  passCalls env request w
  = List.filter (fun c => negb (isReport c)) (passCalls env request w)
    ++ List.filter isReport (passCalls env request w) ∧
  ((List.filter isReport (passCalls env request w) = [] ∧
    cache (Reconcile env request w).2 = cache w)
   ∨
   List.filter isReport (passCalls env request w)
   = reportCalls env (cache (Reconcile env request w).2)).
Proof.
  pass_paths env request w.
  all: filter_reports.
  all: split; [done |].
  all: first [left; done | by right].
Qed.

(** X14.  A pass touches one identity.  With [instance] the object
    stored under the requested name, the pass leaves every cache entry
    and every engine entry under another key, and every stored object
    under another name, as they were. *)
Theorem pass_touches_one_identity env request w instance :
  store w !! request = Some instance →
  (∀ k, k ≠ constraintKeyOf instance →
        cache (Reconcile env request w).2 !! k = cache w !! k ∧
        engine (Reconcile env request w).2 !! k = engine w !! k) ∧
  (∀ n, n ≠ GetName instance →
        store (Reconcile env request w).2 !! n = store w !! n).
Proof.
  intros Hs. pass_paths env request w.
  all: try use_fetched; same_instance instance.
  all: split; [intros k Hk; split | intros n Hn].
  all: repeat first
         [ done
         | rewrite lookup_insert_ne
             by (intros Heq; first [apply Hk | apply Hn]; symmetry; exact Heq)
         | rewrite lookup_delete_ne
             by (intros Heq; first [apply Hk | apply Hn]; symmetry; exact Heq)
         | rewrite lookup_alter_ne
             by (intros Heq; first [apply Hk | apply Hn]; symmetry; exact Heq) ].
Qed.

Lemma pass_touches_one_identity_witness :
  store deletingWorld !! "a"%string = Some deletingK_a ∧
  cache (Reconcile calmEnv "a" deletingWorld).2 !! "K/b"%string
  = cache deletingWorld !! "K/b"%string.
Proof.
  split; [reflexivity |].
  destruct (pass_touches_one_identity calmEnv "a" deletingWorld deletingK_a
              eq_refl) as [Hkeys _].
  exact (proj1 (Hkeys "K/b"%string ltac:(discriminate))).
Defined.

(** X15.  A requeue is asked for only after a failed store write
    ([r.Update] or [r.Status().Update]), always with a nil error, and
    such a pass neither changes the cache nor reports metrics. *)
Theorem requeue_only_on_store_conflict env request w :
  Requeue (Reconcile env request w).1.1 = true →
  (Reconcile env request w).1.2 = None ∧
  (is_Some (updateErr env) ∨ is_Some (statusUpdateErr env)) ∧
  cache (Reconcile env request w).2 = cache w ∧
  List.filter isReport (passCalls env request w) = [].
Proof.
  intros Hrq. pass_paths env request w.
  all: try discriminate Hrq.
  all: split_and!; eauto.
Qed.

Lemma requeue_only_on_store_conflict_witness :
  Requeue (Reconcile statusConflictEnv "a" markedWorld).1.1 = true ∧
  (Reconcile statusConflictEnv "a" markedWorld).1.2 = None ∧
  cache (Reconcile statusConflictEnv "a" markedWorld).2 = cache markedWorld.
Proof.
  assert (Requeue (Reconcile statusConflictEnv "a" markedWorld).1.1 = true)
    as H by (vm_compute; reflexivity).
  split; [exact H |].
  destruct (requeue_only_on_store_conflict statusConflictEnv "a" markedWorld H)
    as (Herr & _ & Hcache & _).
  split; [exact Herr | exact Hcache].
Defined.

(** X16.  Where a returned error comes from.  An error returned by the
    pass is one of: a [r.Get] failure other than not-found (line 155);
    the failure to extract the enforcement action of the fetched object
    (line 161); on a fetched object with deletion requested that carries
    the finalizer, a removal failure other than unrecognized-constraint
    (line 231); on a fetched object without deletion requested, with
    [marked] the object in memory after lines 172-184: the failure to
    read the status of [marked] (line 188), the failure to write the
    cleared status into [marked] (line 192), the registration failure
    (line 208), or the failure to write the enforced status into the
    cleared object (line 214).  It never comes with a requeue signal.
    So the failure of a store write, of the status write, or of the
    [SetHAStatus] of line 201 is never returned.  The list does not
    depend on when [SetHAStatus] fails. *)
Theorem returned_error_sources env request w e :
  (Reconcile env request w).1.2 = Some e →
  Requeue (Reconcile env request w).1.1 = false ∧
  ((getErr env = Some e ∧ IsNotFound e = false) ∨
   (∃ instance,
      Fetched env request w instance ∧
      (GetEnforcementAction instance = inr e ∨
       (DeletionRequested instance = true ∧
        HasFinalizer instance = true ∧
        opaRemoveErr env = Some e ∧ IsUnrecognizedConstraint e = false) ∨
       (DeletionRequested instance = false ∧
        ∃ marked w1,
          ensureFinalizer env instance (record (StoreGet request) w)
          = (Some marked, w1) ∧
          (GetHAStatus marked = inr e ∨
           ∃ st, GetHAStatus marked = inl st ∧
             (SetHAStatus marked (set_Errors [] st) = inr e ∨
              ∃ cleared,
                SetHAStatus marked (set_Errors [] st) = inl cleared ∧
                ((stale env cleared w1 = true ∧ opaAddErr env = Some e) ∨
                 SetHAStatus cleared (set_Enforced true (set_Errors [] st))
                 = inr e))))))).
Proof.
  unfold Reconcile.
  destruct (enabled env) eqn:Hen; cbn [negb]; [| done].
  unfold Get. cbn [store record].
  destruct (getErr env) as [ge|] eqn:Hg.
  { destruct (IsNotFound ge) eqn:Hnf; [done |].
    intros [= <-]. split; [done |]. by left. }
  destruct (store w !! request) as [instance|] eqn:Hs; [| done].
  assert (Fetched env request w instance) as HF by done.
  destruct (GetEnforcementAction instance) as [ea|ee] eqn:Hea.
  2:{ intros [= <-]. split; [done |]. right. exists instance.
      split; [done |]. by left. }
  rewrite deferredReport_result.
  unfold reconcileInstance, DeletionTimestampIsZero.
  destruct (DeletionRequested instance) eqn:Hdel; cbn [negb].
  - intros (Hrq & Hf & Hrm & Hun)%handleDeletion_error.
    split; [done |]. right. exists instance. split; [done |].
    right. left. done.
  - destruct (ensureFinalizer env instance _) as [[marked|] w1] eqn:Hmark;
      [| done].
    intros (Hrq & Hsrc)%syncConstraint_error.
    split; [done |]. right. exists instance. split; [done |].
    right. right. split; [done |]. exists marked, w1. split; [done |].
    exact Hsrc.
Qed.

Lemma returned_error_sources_witness :
  (Reconcile badRuleEnv "a" markedWorld).1.2 = Some (OtherError "bad rule") ∧
  Requeue (Reconcile badRuleEnv "a" markedWorld).1.1 = false.
Proof.
  assert ((Reconcile badRuleEnv "a" markedWorld).1.2
          = Some (OtherError "bad rule")) as H by (vm_compute; reflexivity).
  split; [exact H |].
  exact (proj1 (returned_error_sources badRuleEnv "a" markedWorld _ H)).
Defined.

(** X17.  Engine calls follow the branch.  A pass makes no engine call
    at all, or, on an object with deletion requested that carries the
    finalizer, exactly one [RemoveConstraint] on the fetched object, or,
    on an object without deletion requested, one [GetConstraint]
    optionally followed by one [AddConstraint] of the status-free copy
    of the very object that was looked up.  So a registration is always
    preceded by a fetch, a pass writes to the engine at most once, and
    never both registers and removes. *)
Theorem engine_calls_follow_branch env request w :
  List.filter isOpaCall (passCalls env request w) = [] ∨
  (∃ instance,
     store w !! request = Some instance ∧
     DeletionRequested instance = true ∧
     HasFinalizer instance = true ∧
     List.filter isOpaCall (passCalls env request w)
     = [OpaRemoveConstraint instance]) ∨
  (∃ instance o,
     store w !! request = Some instance ∧
     DeletionRequested instance = false ∧
     GetKind o = GetKind instance ∧
     GetName o = GetName instance ∧
     GetSpec o = GetSpec instance ∧
     HasFinalizer o = true ∧
     (List.filter isOpaCall (passCalls env request w) = [OpaGetConstraint o] ∨
      List.filter isOpaCall (passCalls env request w)
      = [OpaGetConstraint o; OpaAddConstraint (RemoveStatusField o)])).
Proof.
  pass_paths env request w.
  all: filter_reports.
  all: try (left; done).
  all: use_fetched.
  all: first
    [ right; left; eexists; split_and!; [eassumption | done | done | done]
    | right; right; eexists _, _;
      split_and!;
        [ eassumption | done | | | | | first [left; reflexivity | right; reflexivity] ];
      first [done | apply (HasFinalizer_attach instance)] ].
Qed.

(** X18.  The status a pass writes is fresh.  A pass makes at most one
    status write; the object it writes carries the finalizer and a
    well-formed status that holds no error of an earlier pass: either it
    is enforced with an empty error list, or its error list is the
    single message of this pass's registration failure. *)
Theorem status_written_is_fresh env request w written :
  StoreStatusUpdate written ∈ passCalls env request w →
  List.filter isStatusUpdate (passCalls env request w)
  = [StoreStatusUpdate written] ∧
  HasFinalizer written = true ∧
  ∃ s,
    StatusField written = Some (StatusHA s) ∧
    ((Enforced s = true ∧ Errors s = []) ∨
     (∃ e, opaAddErr env = Some e ∧ Errors s = [{| Message := Error e |}])).
Proof.
  intros Hw. pass_paths env request w.
  all: filter_reports.
  all: split_calls Hw.
  all: simplify_eq.
  all: split_and!;
    [ done
    | first [done | apply (HasFinalizer_attach instance)]
    | eexists; split; [reflexivity |]; first [left; done | right; eauto] ].
Qed.

Lemma status_written_is_fresh_witness :
  StoreStatusUpdate (withStatus enforcedStatus markedK_a)
    ∈ passCalls calmEnv "a" markedWorld ∧
  List.filter isStatusUpdate (passCalls calmEnv "a" markedWorld)
  = [StoreStatusUpdate (withStatus enforcedStatus markedK_a)].
Proof.
  assert (StoreStatusUpdate (withStatus enforcedStatus markedK_a)
            ∈ passCalls calmEnv "a" markedWorld)
    as H by (vm_compute; pick_call).
  split; [exact H |].
  exact (proj1 (status_written_is_fresh calmEnv "a" markedWorld _ H)).
Defined.

(** X19.  A registration failure does not reset the enforced flag.  On
    an object that carries the finalizer and a readable status, a pass
    whose registration fails writes back the status with the [Enforced]
    flag the object came with, next to the error message; an object
    enforced by an earlier pass is thus written as enforced and
    failing. *)
Theorem registration_failure_keeps_enforced_flag
    env request w instance st obj e :
  store w !! request = Some instance →
  HasFinalizer instance = true →
  GetHAStatus instance = inl st →
  OpaAddConstraint obj ∈ passCalls env request w →
  opaAddErr env = Some e →
  StoreStatusUpdate
    (withStatus {| Enforced := Enforced st;
                   Errors := [{| Message := Error e |}] |} instance)
    ∈ passCalls env request w.
Proof.
  intros Hs Hf Hst Hadd He. pass_paths env request w.
  all: split_calls Hadd.
  all: try congruence.
  all: use_fetched; same_instance instance.
  all: try congruence.
  all: assert (st0 = st) as -> by congruence.
  all: pick_call.
Qed.

Lemma registration_failure_keeps_enforced_flag_witness :
  HasFinalizer enforcedK_a = true ∧
  GetHAStatus enforcedK_a = inl enforcedStatus ∧
  OpaAddConstraint markedK_a
    ∈ passCalls badRuleEnv "a" (clusterOf enforcedK_a ∅ ∅) ∧
  StoreStatusUpdate
    (withStatus {| Enforced := true;
                   Errors := [{| Message := "bad rule" |}] |} enforcedK_a)
    ∈ passCalls badRuleEnv "a" (clusterOf enforcedK_a ∅ ∅).
Proof.
  split; [reflexivity |]. split; [reflexivity |].
  assert (OpaAddConstraint markedK_a
            ∈ passCalls badRuleEnv "a" (clusterOf enforcedK_a ∅ ∅))
    as Hadd by (vm_compute; pick_call).
  split; [exact Hadd |].
  exact (registration_failure_keeps_enforced_flag badRuleEnv "a"
           (clusterOf enforcedK_a ∅ ∅) enforcedK_a
           enforcedStatus markedK_a (OtherError "bad rule")
           eq_refl eq_refl eq_refl Hadd eq_refl).
Defined.

(** X20.  Finalizer writes follow the branch.  A pass makes at most one
    [r.Update].  On an object without deletion requested it is the
    object with the finalizer appended, and only when the finalizer was
    missing; on an object with deletion requested it is the object with
    the finalizer removed, and only after the engine removal went
    through.  A finalizer list without duplicates stays without
    duplicates. *)
Theorem finalizer_writes_follow_branch env request w obj :
  StoreUpdate obj ∈ passCalls env request w →
  ∃ instance,
    store w !! request = Some instance ∧
    List.filter isStoreUpdate (passCalls env request w) = [StoreUpdate obj] ∧
    ((DeletionRequested instance = false ∧ HasFinalizer instance = false ∧
      obj = attach instance)
     ∨
     (DeletionRequested instance = true ∧ HasFinalizer instance = true ∧
      obj = RemoveFinalizer instance ∧ removalConfirmed env = true)) ∧
    (NoDup (GetFinalizers instance) → NoDup (GetFinalizers obj)).
Proof.
  intros Hu. pass_paths env request w.
  all: filter_reports.
  all: split_calls Hu.
  all: simplify_eq; use_fetched.
  all: eexists; split_and!; [eassumption | done | | ].
  all: try (left; done).
  all: try (right; split_and!; try done; unfold removalConfirmed;
            repeat case_match; simplify_eq; done).
  all: intros Hnd; simpl;
       first [ apply NoDup_attach; done | by apply NoDup_removeString ].
Qed.

Lemma finalizer_writes_follow_branch_witness :
  StoreUpdate (attach newK_a) ∈ passCalls calmEnv "a" newWorld ∧
  List.filter isStoreUpdate (passCalls calmEnv "a" newWorld)
  = [StoreUpdate (attach newK_a)].
Proof.
  assert (StoreUpdate (attach newK_a) ∈ passCalls calmEnv "a" newWorld)
    as H by (vm_compute; pick_call).
  split; [exact H |].
  destruct (finalizer_writes_follow_branch calmEnv "a" newWorld _ H)
    as (instance & _ & Hone & _).
  exact Hone.
Defined.



(** X22.  What a clean return means.  When a pass on an object without
    deletion requested returns neither an error nor a requeue, the
    stored object carries the finalizer and the status "enforced, no
    errors" and still has its kind and policy content, the engine holds
    a rule for the identity that is semantically equal to the object,
    and the cache files the identity as (enforcement action, active). *)
Theorem clean_return_means_enforced env request w instance :
  Fetched env request w instance →
  GetName instance = request →
  DeletionRequested instance = false →
  (Reconcile env request w).1 = ({| Requeue := false |}, None) →
  ∃ o c ea,
    GetEnforcementAction instance = inl ea ∧
    store (Reconcile env request w).2 !! request = Some o ∧
    GetKind o = GetKind instance ∧
    GetSpec o = GetSpec instance ∧
    HasFinalizer o = true ∧
    StatusField o = Some (StatusHA enforcedStatus) ∧
    engine (Reconcile env request w).2 !! constraintKeyOf instance = Some c ∧
    SemanticEqual instance c = true ∧
    cache (Reconcile env request w).2 !! constraintKeyOf instance
    = Some (Tags ea ActiveStatus).
Proof.
  intros (Hen & Hg & Hs) Hn Hdel Hret.
  pass_paths env request w.
  all: try use_fetched; simplify_eq; try congruence.
  all: try (unfold Get in *; simpl in *; rewrite ?Hg, ?Hs in *; simpl in *;
            congruence).
  all: same_instance instance; try congruence.
  all: try match goal with
       | H : stale _ _ _ = false |- _ =>
           apply stale_false in H as (_ & c & Hc & Hspec); simpl in Hc, Hspec
       end.
  all: rewrite lookup_alter_eq, ?lookup_insert_eq, ?Hs; simpl.
  all: eexists _, _, _.
  all: split_and!;
    [ eassumption | reflexivity | done | done
    | first [done | apply (HasFinalizer_attach instance)]
    | done
    | first [exact Hc | apply lookup_insert_eq | reflexivity]
    | unfold SemanticEqual; apply bool_decide_eq_true;
      first [exact Hspec | reflexivity]
    | first [apply lookup_insert_eq | reflexivity] ].
Qed.

Lemma clean_return_means_enforced_witness :
  Fetched calmEnv "a" newWorld newK_a ∧
  (Reconcile calmEnv "a" newWorld).1 = ({| Requeue := false |}, None) ∧
  ∃ c,
    engine (Reconcile calmEnv "a" newWorld).2 !! "K/a"%string = Some c ∧
    SemanticEqual newK_a c = true.
Proof.
  assert (Fetched calmEnv "a" newWorld newK_a) as HF
    by (repeat split; reflexivity).
  assert ((Reconcile calmEnv "a" newWorld).1 = ({| Requeue := false |}, None))
    as Hret by (vm_compute; reflexivity).
  split; [exact HF |]. split; [exact Hret |].
  destruct (clean_return_means_enforced calmEnv "a" newWorld newK_a
              HF eq_refl eq_refl Hret)
    as (o & c & ea & _ & _ & _ & _ & _ & _ & Hc & Heq & _).
  exists c. split; [exact Hc | exact Heq].
Defined.

(** X23.  Log lines of the engine writes.  A pass that calls
    [RemoveConstraint] logs "constraint removed from OPA" exactly once,
    also when the removal failed and the pass returns the error.  A
    pass that calls [AddConstraint] logs "constraint added to OPA" once
    when the registration succeeded and not at all when it failed. *)
Theorem engine_write_log_lines env request w :
  (∀ o, OpaRemoveConstraint o ∈ passCalls env request w →
        linesOf "constraint removed from OPA" (passLogs env request w)
        = ["constraint removed from OPA"%string]) ∧
  (∀ obj, OpaAddConstraint obj ∈ passCalls env request w →
          linesOf "constraint added to OPA" (passLogs env request w)
          = match opaAddErr env with
            | None => ["constraint added to OPA"%string]
            | Some _ => []
            end).
Proof.
  split.
  - intros o Hrm. unfold passLogs. pass_paths env request w.
    all: split_calls Hrm.
    all: rewrite ?reportTotalConstraints_logs; simpl.
    all: rewrite <- ?app_assoc, drop_app_length.
    all: rewrite ?app_assoc.
    all: try (rewrite (linesOf_app_report_failures "constraint removed from OPA")
                by discriminate).
    all: count_lines; done.
  - intros obj Hadd. unfold passLogs. pass_paths env request w.
    all: split_calls Hadd.
    all: rewrite ?reportTotalConstraints_logs; simpl.
    all: rewrite <- ?app_assoc, drop_app_length.
    all: rewrite ?app_assoc.
    all: try (rewrite (linesOf_app_report_failures "constraint added to OPA")
                by discriminate).
    all: count_lines.
    all: repeat case_match; simplify_eq; done.
Qed.

Lemma engine_write_log_lines_witness :
  OpaRemoveConstraint deletingK_a ∈ passCalls engineDownEnv "a" deletingWorld ∧
  (Reconcile engineDownEnv "a" deletingWorld).1
  = ({| Requeue := false |}, Some (OtherError "engine down")) ∧
  linesOf "constraint removed from OPA" (passLogs engineDownEnv "a" deletingWorld)
  = ["constraint removed from OPA"%string].
Proof.
  assert (OpaRemoveConstraint deletingK_a
            ∈ passCalls engineDownEnv "a" deletingWorld)
    as H by (vm_compute; pick_call).
  split; [exact H |]. split; [vm_compute; reflexivity |].
  exact (proj1 (engine_write_log_lines engineDownEnv "a" deletingWorld) _ H).
Defined.
